(** * claude-code-diffs: session-log change extraction and change trackers

    A shallow embedding of
      - [src/parsers/session-parser.ts]   ([SessionParser.extractFileChanges]),
      - [src/live-mode/live-diff-tracker.ts] ([LiveDiffTracker]),
      - the [HeuristicTracker] class, found in
      [src/diff-tracker/diff-tracker.ts] after [DiffTracker],
    followed by the properties proved about them.

    Conventions.  A JavaScript string is a [string]: a sequence of code
    units, each an [ascii] (code units 0..255).  An optional property
    ([file_path?: string]) is an [option]; [undefined] is [None].  A [Set] of
    strings is a [gset string], a [Map] with string keys a [gmap string _].
    Timeouts live in an explicit table of the host's armed timers, next to
    the tracker's own fields, so that [setTimeout], [clearTimeout] and the
    firing of a callback are ordinary state changes. *)

From Stdlib Require Import Ascii String NArith ZArith Lia.
From stdpp Require Import gmap strings list fin_maps pretty.

(** ** JavaScript string primitives used by the sources *)
Module Js.
Local Open Scope N_scope.

Definition code (c : ascii) : N := N_of_ascii c.

(** The class [\s] (WhiteSpace and LineTerminator) on code units below 256:
    TAB, LF, VT, FF, CR, SPACE and NO-BREAK SPACE. *)
Definition isWhiteSpace (c : ascii) : bool :=
  ((9 <=? code c) && (code c <=? 13)) || (code c =? 32) || (code c =? 160).

(** [.] matches every code unit except a line terminator (LF, CR). *)
Definition isLineTerminator (c : ascii) : bool :=
  (code c =? 10) || (code c =? 13).

(** The class [\w]: [A-Za-z0-9_]. *)
Definition isWordChar (c : ascii) : bool :=
  ((65 <=? code c) && (code c <=? 90)) || ((97 <=? code c) && (code c <=? 122))
  || ((48 <=? code c) && (code c <=? 57)) || (code c =? 95).

(** The single and the double quote characters (code units 39 and 34):
    the class of the clean-up [replace] in the [rm] branch. *)
Definition isQuote (c : ascii) : bool :=
  (code c =? 39) || (code c =? 34).

Fixpoint takeWhile (p : ascii -> bool) (s : string) : string :=
  match s with
  | String c s' => if p c then String c (takeWhile p s') else EmptyString
  | EmptyString => EmptyString
  end.

Fixpoint dropWhile (p : ascii -> bool) (s : string) : string :=
  match s with
  | String c s' => if p c then dropWhile p s' else s
  | EmptyString => EmptyString
  end.

Fixpoint removeAll (p : ascii -> bool) (s : string) : string :=
  match s with
  | String c s' => if p c then removeAll p s' else String c (removeAll p s')
  | EmptyString => EmptyString
  end.

Fixpoint rev_acc (s acc : string) : string :=
  match s with
  | String c s' => rev_acc s' (String c acc)
  | EmptyString => acc
  end.

Definition rev (s : string) : string := rev_acc s EmptyString.

(** [s.trim()] *)
Definition trim (s : string) : string :=
  rev (dropWhile isWhiteSpace (rev (dropWhile isWhiteSpace s))).

(** [s.startsWith(p)] *)
Definition startsWith (p s : string) : bool := String.prefix p s.

(** A value used as a condition: the empty string is falsy. *)
Definition truthy (s : string) : bool := negb (String.eqb s EmptyString).

(** [s.split(/\s+/)].  [inSep] says that the code unit before the cursor
    belongs to a separator already closed by a cut; [cur] is the fragment
    read since the last cut.  A separator at either end of [s] leaves an
    empty fragment there, and the empty string splits into one empty
    fragment. *)
Fixpoint splitWs_go (inSep : bool) (cur : string) (s : string) : list string :=
  match s with
  | EmptyString => [cur]
  | String c s' =>
      if isWhiteSpace c then
        if inSep then splitWs_go true cur s'
        else cur :: splitWs_go true EmptyString s'
      else splitWs_go false (cur +:+ String c EmptyString) s'
  end.

Definition splitWs (s : string) : list string := splitWs_go false EmptyString s.

(** Every code unit of [s] satisfies [p]. *)
Fixpoint every (p : ascii -> bool) (s : string) : bool :=
  match s with
  | String c s' => p c && every p s'
  | EmptyString => true
  end.

(** [s.split(sep)] for a separator of one code unit. *)
Fixpoint splitOn_go (sep : ascii) (cur : string) (s : string) : list string :=
  match s with
  | EmptyString => [cur]
  | String c s' =>
      if Ascii.eqb c sep then cur :: splitOn_go sep EmptyString s'
      else splitOn_go sep (cur +:+ String c EmptyString) s'
  end.

Definition splitOn (sep : ascii) (s : string) : list string :=
  splitOn_go sep EmptyString s.

(** *** A backtracking matcher for the pieces of the [rm] pattern *)

(** [x+] for a class [x], greedy: take one code unit of the class, then
    prefer taking more, and fall back to the continuation [k]. *)
Fixpoint plusGreedy {R : Type} (p : ascii -> bool) (s : string)
    (k : string -> option R) : option R :=
  match s with
  | String c s' =>
      if p c then
        match plusGreedy p s' k with
        | Some r => Some r
        | None => k s'
        end
      else None
  | EmptyString => None
  end.

(** One literal code unit. *)
Definition lit {R : Type} (c : ascii) (s : string) (k : string -> option R)
    : option R :=
  match s with
  | String d s' => if Ascii.eqb c d then k s' else None
  | EmptyString => None
  end.

(** [\b] at a position, given the code unit before it (if any) and the
    text from it on. *)
Definition wordBoundary (prev : option ascii) (s : string) : bool :=
  let before := match prev with Some c => isWordChar c | None => false end in
  let after := match s with String c _ => isWordChar c | EmptyString => false end in
  xorb before after.

End Js.

(** ** [types/session-events.ts] *)

Inductive EventType := user | assistant | user_message | file_history_snapshot.

Inductive ToolName := Edit | Write | Delete | Heuristic.

Record ToolInput := mkToolInput {
  file_path : option string;
  old_string : option string;
  new_string : option string;
  content : option string;
  command : option string
}.

Inductive MessageContent :=
| TextContent (text : string)
| ToolUseContent (id name : string) (input : ToolInput)
| ToolResultContent (tool_use_id result : string).

(** [content: MessageContent[] | string] *)
Inductive MessageBody :=
| BodyString (s : string)
| BodyItems (items : list MessageContent).

Module Message.
Record t := mk {
  content : MessageBody
}.
End Message.

Module SessionEvent.
Record t := mk {
  parentUuid : option string;
  sessionId : string;
  gitBranch : option string;
  type : EventType;
  message : option Message.t;
  uuid : string;
  timestamp : string
}.
End SessionEvent.

Module FileChange.
Record t := mk {
  sessionId : string;
  timestamp : string;
  toolName : ToolName;
  filePath : string;
  oldContent : option string;
  newContent : option string;
  gitBranch : option string;
  messageUuid : string;
  parentUuid : option string;
  isDeleted : option bool;
  isHeuristic : option bool
}.
End FileChange.

(** ** [parsers/session-parser.ts] *)
Module SessionParser.
Import Js.

(** [(.+)] as the last piece of the pattern: the longest run of code units
    that are not line terminators, which must not be empty. *)
Definition dotPlus (s : string) : option string :=
  match takeWhile (fun c => negb (isLineTerminator c)) s with
  | EmptyString => None
  | g => Some g
  end.

Definition isRF (c : ascii) : bool :=
  Ascii.eqb c "r" || Ascii.eqb c "f".

(** [rm\s+(?:-[rf]+\s+)?(.+)] tried at one position; the result is the
    text of group 1.  The optional group is greedy: it is tried first and
    left out only when the rest cannot match after it. *)
Definition rmAt (s : string) : option string :=
  lit "r" s (fun s1 =>
  lit "m" s1 (fun s2 =>
  plusGreedy isWhiteSpace s2 (fun s3 =>
    match
      lit "-" s3 (fun s4 =>
      plusGreedy isRF s4 (fun s5 =>
      plusGreedy isWhiteSpace s5 dotPlus))
    with
    | Some g => Some g
    | None => dotPlus s3
    end))).

(** The search of [String.prototype.match]: leftmost position first. *)
Fixpoint rmSearch (prev : option ascii) (s : string) : option string :=
  match (if wordBoundary prev s then rmAt s else None) with
  | Some g => Some g
  | None =>
      match s with
      | String c s' => rmSearch (Some c) s'
      | EmptyString => None
      end
  end.

(** [command.match(/\brm\s+(?:-[rf]+\s+)?(.+)/)], reduced to [rmMatch[1]]. *)
Definition rmMatch (command : string) : option string :=
  rmSearch None command.

(** [rmMatch[1].split(/\s+/).filter(p => p && !p.startsWith('-'))] *)
Definition rmFilePaths (group1 : string) : list string :=
  List.filter (fun p => truthy p && negb (startsWith "-" p)) (splitWs group1).

(** [filePath.trim().replace(Q, '')] where [Q] is the global pattern on
    the class of the two quote characters. *)
Definition cleanPath (filePath : string) : string :=
  removeAll isQuote (trim filePath).

Definition editOrWriteChange (event : SessionEvent.t) (toolName : ToolName)
    (path : string) (input : ToolInput) : FileChange.t :=
  let change :=
    {| FileChange.sessionId := SessionEvent.sessionId event;
       FileChange.timestamp := SessionEvent.timestamp event;
       FileChange.toolName := toolName;
       FileChange.filePath := path;
       FileChange.oldContent := None;
       FileChange.newContent := None;
       FileChange.gitBranch := SessionEvent.gitBranch event;
       FileChange.messageUuid := SessionEvent.uuid event;
       FileChange.parentUuid := SessionEvent.parentUuid event;
       FileChange.isDeleted := None;
       FileChange.isHeuristic := None |} in
  match toolName with
  | Edit =>
      {| FileChange.sessionId := FileChange.sessionId change;
         FileChange.timestamp := FileChange.timestamp change;
         FileChange.toolName := FileChange.toolName change;
         FileChange.filePath := FileChange.filePath change;
         FileChange.oldContent := old_string input;
         FileChange.newContent := new_string input;
         FileChange.gitBranch := FileChange.gitBranch change;
         FileChange.messageUuid := FileChange.messageUuid change;
         FileChange.parentUuid := FileChange.parentUuid change;
         FileChange.isDeleted := FileChange.isDeleted change;
         FileChange.isHeuristic := FileChange.isHeuristic change |}
  | Write =>
      {| FileChange.sessionId := FileChange.sessionId change;
         FileChange.timestamp := FileChange.timestamp change;
         FileChange.toolName := FileChange.toolName change;
         FileChange.filePath := FileChange.filePath change;
         FileChange.oldContent := FileChange.oldContent change;
         FileChange.newContent := content input;
         FileChange.gitBranch := FileChange.gitBranch change;
         FileChange.messageUuid := FileChange.messageUuid change;
         FileChange.parentUuid := FileChange.parentUuid change;
         FileChange.isDeleted := FileChange.isDeleted change;
         FileChange.isHeuristic := FileChange.isHeuristic change |}
  | _ => change
  end.

Definition deleteChange (event : SessionEvent.t) (path : string) : FileChange.t :=
  {| FileChange.sessionId := SessionEvent.sessionId event;
     FileChange.timestamp := SessionEvent.timestamp event;
     FileChange.toolName := Delete;
     FileChange.filePath := path;
     FileChange.oldContent := None;
     FileChange.newContent := None;
     FileChange.gitBranch := SessionEvent.gitBranch event;
     FileChange.messageUuid := SessionEvent.uuid event;
     FileChange.parentUuid := SessionEvent.parentUuid event;
     FileChange.isDeleted := Some true;
     FileChange.isHeuristic := None |}.

(** The body of [for (const filePath of filePaths)]: [changes] is the
    array being filled. *)
Definition pushDelete (event : SessionEvent.t) (changes : list FileChange.t)
    (filePath : string) : list FileChange.t :=
  let clean := cleanPath filePath in
  if truthy clean then changes ++ [deleteChange event clean] else changes.

(** The body of [for (const item of content)]. *)
Definition processItem (event : SessionEvent.t) (changes : list FileChange.t)
    (item : MessageContent) : list FileChange.t :=
  match item with
  | ToolUseContent _ toolName input =>
      if String.eqb toolName "Edit" || String.eqb toolName "Write" then
        match file_path input with
        | Some path =>
            if truthy path then
              changes ++
                [editOrWriteChange event
                   (if String.eqb toolName "Edit" then Edit else Write) path input]
            else changes
        | None => changes
        end
      else if String.eqb toolName "Bash" then
        let command := match command input with
                       | Some c => if truthy c then c else EmptyString
                       | None => EmptyString
                       end in
        match rmMatch command with
        | Some group1 => fold_left (pushDelete event) (rmFilePaths group1) changes
        | None => changes
        end
      else changes
  | _ => changes
  end.

(** [Array.isArray(event.message.content) ? event.message.content : []],
    after the guard [event.type !== 'assistant' || !event.message?.content]
    has let the event through; [None] when the guard skips the event. *)
Definition contentItems (event : SessionEvent.t) : option (list MessageContent) :=
  match SessionEvent.type event with
  | assistant =>
      match SessionEvent.message event with
      | Some m =>
          match Message.content m with
          | BodyString s => if truthy s then Some [] else None
          | BodyItems items => Some items
          end
      | None => None
      end
  | _ => None
  end.

(** The body of [for (const event of events)]. *)
Definition processEvent (changes : list FileChange.t) (event : SessionEvent.t)
    : list FileChange.t :=
  match contentItems event with
  | Some items => fold_left (processItem event) items changes
  | None => changes
  end.

Definition extractFileChanges (events : list SessionEvent.t) : list FileChange.t :=
  fold_left processEvent events [].

(** The records one content item of [event] adds: the loop body run on an
    empty array. *)
Definition itemChanges (event : SessionEvent.t) (item : MessageContent)
    : list FileChange.t :=
  processItem event [] item.

(** The content items the extractor walks for [event]. *)
Definition walkedItems (event : SessionEvent.t) : list MessageContent :=
  match contentItems event with Some items => items | None => [] end.

(** An assistant event whose message holds the given content items. *)
Definition assistantEvent (parent : option string) (session : string)
    (branch : option string) (uuid timestamp : string)
    (items : list MessageContent) : SessionEvent.t :=
  {| SessionEvent.parentUuid := parent; SessionEvent.sessionId := session;
     SessionEvent.gitBranch := branch; SessionEvent.type := assistant;
     SessionEvent.message := Some (Message.mk (BodyItems items));
     SessionEvent.uuid := uuid; SessionEvent.timestamp := timestamp |}.

(** The double quote character, and a string in double quotes. *)
Definition dquote : string := String (ascii_of_N 34) EmptyString.
Definition quoted (s : string) : string := dquote +:+ s +:+ dquote.

End SessionParser.

(** ** Timeouts of the host

    [setTimeout] returns a fresh handle and arms a timeout; [clearTimeout]
    disarms it.  The table maps each armed handle to what its callback
    closes over.  When an armed timeout fires is the host's choice: the
    delay is recorded but no clock is modelled, so every firing order is
    covered. *)
Section Timeouts.
Context {A : Type}.

Definition clearTimeout (h : nat) (timers : gmap nat A) : gmap nat A :=
  delete h timers.

(** [for (const timeout of m.values()) clearTimeout(timeout)] *)
Definition clearTimeouts (handles : list nat) (timers : gmap nat A) : gmap nat A :=
  foldr clearTimeout timers handles.

Definition values (m : gmap string nat) : list nat := (map_to_list m).*2.
End Timeouts.

(** ** [live-mode/live-diff-tracker.ts] *)
Module LiveDiffTracker.

(** What the callback passed to [setTimeout] in [scheduleDiff] closes
    over, with the delay it was armed with. *)
Record Timeout := mkTimeout {
  change : FileChange.t;
  after : Z
}.

Record t := mk {
  lastSeenChanges : gset string;
  pendingDiffs : gmap string nat;
  isEnabled : bool;
  delay : Z;
  (** the host: armed timeouts and the next handle *)
  timers : gmap nat Timeout;
  nextTimer : nat;
  (** callbacks that fired, called [showDiff] and have not reached their
      [finally] block yet, by change key *)
  awaiting : list string
}.

(** [new LiveDiffTracker(diffTracker)] *)
Definition new : t :=
  {| lastSeenChanges := ∅; pendingDiffs := ∅; isEnabled := false;
     delay := 1000; timers := ∅; nextTimer := 0; awaiting := [] |}.

Definition getChangeKey (c : FileChange.t) : string :=
  FileChange.sessionId c +:+ ":" +:+ FileChange.messageUuid c +:+ ":" +:+
  FileChange.filePath c.

Definition setEnabled (enabled : bool) (s : t) : t :=
  if enabled then
    {| lastSeenChanges := lastSeenChanges s; pendingDiffs := pendingDiffs s;
       isEnabled := enabled; delay := delay s; timers := timers s;
       nextTimer := nextTimer s; awaiting := awaiting s |}
  else
    {| lastSeenChanges := lastSeenChanges s; pendingDiffs := ∅;
       isEnabled := enabled; delay := delay s;
       timers := clearTimeouts (values (pendingDiffs s)) (timers s);
       nextTimer := nextTimer s; awaiting := awaiting s |}.

Definition setDelay (d : Z) (s : t) : t :=
  {| lastSeenChanges := lastSeenChanges s; pendingDiffs := pendingDiffs s;
     isEnabled := isEnabled s; delay := d; timers := timers s;
     nextTimer := nextTimer s; awaiting := awaiting s |}.

Definition scheduleDiff (s : t) (c : FileChange.t) : t :=
  let changeKey := getChangeKey c in
  let armed :=
    match pendingDiffs s !! changeKey with
    | Some old => clearTimeout old (timers s)
    | None => timers s
    end in
  let timeout := nextTimer s in
  {| lastSeenChanges := lastSeenChanges s;
     pendingDiffs := <[changeKey := timeout]> (pendingDiffs s);
     isEnabled := isEnabled s; delay := delay s;
     timers := <[timeout := mkTimeout c (delay s)]> armed;
     nextTimer := S timeout; awaiting := awaiting s |}.

(** The first loop of [processChanges]: the pair is [newChanges] and
    [this.lastSeenChanges]. *)
Definition identifyNew (acc : list FileChange.t * gset string) (c : FileChange.t)
    : list FileChange.t * gset string :=
  let changeKey := getChangeKey c in
  if decide (changeKey ∈ acc.2) then acc
  else (acc.1 ++ [c], acc.2 ∪ {[changeKey]}).

Definition withSeen (seen : gset string) (s : t) : t :=
  {| lastSeenChanges := seen; pendingDiffs := pendingDiffs s;
     isEnabled := isEnabled s; delay := delay s; timers := timers s;
     nextTimer := nextTimer s; awaiting := awaiting s |}.

Definition processChanges (changes : list FileChange.t) (skipOnStartup : bool)
    (s : t) : t :=
  if negb (isEnabled s) || (length changes =? 0)%nat then s
  else if skipOnStartup then s
  else
    let r := fold_left identifyNew changes ([], lastSeenChanges s) in
    let newChanges := r.1 in
    let s1 := withSeen r.2 s in
    if (length newChanges =? 0)%nat then s1
    else fold_left scheduleDiff newChanges s1.

Definition reset (s : t) : t :=
  {| lastSeenChanges := ∅; pendingDiffs := ∅;
     isEnabled := isEnabled s; delay := delay s;
     timers := clearTimeouts (values (pendingDiffs s)) (timers s);
     nextTimer := nextTimer s; awaiting := awaiting s |}.

Definition dispose (s : t) : t := reset s.

(** The callback of [scheduleDiff] up to its [await]: the timeout is
    spent and [this.diffTracker.showDiff(change)] is called.  The second
    component lists the changes handed to [showDiff]. *)
Definition timerFires (h : nat) (s : t) : t * list FileChange.t :=
  match timers s !! h with
  | Some tmo =>
      ({| lastSeenChanges := lastSeenChanges s; pendingDiffs := pendingDiffs s;
          isEnabled := isEnabled s; delay := delay s;
          timers := delete h (timers s); nextTimer := nextTimer s;
          awaiting := awaiting s ++ [getChangeKey (change tmo)] |},
       [change tmo])
  | None => (s, [])
  end.

Fixpoint removeFirst (k : string) (l : list string) : list string :=
  match l with
  | [] => []
  | x :: l' => if decide (x = k) then l' else x :: removeFirst k l'
  end.

(** The rest of the callback, once the promise of [showDiff] has settled
    either way: the [finally] block. *)
Definition showDiffSettles (changeKey : string) (s : t) : t :=
  if decide (changeKey ∈ awaiting s) then
    {| lastSeenChanges := lastSeenChanges s;
       pendingDiffs := delete changeKey (pendingDiffs s);
       isEnabled := isEnabled s; delay := delay s; timers := timers s;
       nextTimer := nextTimer s; awaiting := removeFirst changeKey (awaiting s) |}
  else s.

(** What can happen to a tracker: calls of its methods and the two halves
    of a timeout callback. *)
Inductive event :=
| SetEnabled (enabled : bool)
| SetDelay (d : Z)
| ProcessChanges (changes : list FileChange.t) (skipOnStartup : bool)
| Reset
| Dispose
| TimerFires (h : nat)
| ShowDiffSettles (changeKey : string).

Definition step (s : t) (e : event) : t * list FileChange.t :=
  match e with
  | SetEnabled b => (setEnabled b s, [])
  | SetDelay d => (setDelay d s, [])
  | ProcessChanges cs skip => (processChanges cs skip s, [])
  | Reset => (reset s, [])
  | Dispose => (dispose s, [])
  | TimerFires h => timerFires h s
  | ShowDiffSettles k => (showDiffSettles k s, [])
  end.

(** A run: the final state and every change handed to [showDiff], in
    order. *)
Fixpoint run (s : t) (es : list event) : t * list FileChange.t :=
  match es with
  | [] => (s, [])
  | e :: es' =>
      let r := step s e in
      let r' := run r.1 es' in
      (r'.1, r.2 ++ r'.2)
  end.

Definition delivered (s : t) (es : list event) : list string :=
  getChangeKey <$> (run s es).2.

Definition isReset (e : event) : bool :=
  match e with Reset | Dispose => true | _ => false end.

(** No [reset()] (and no [dispose()], which resets) among the events. *)
Definition resetFree (es : list event) : bool := forallb (fun e => negb (isReset e)) es.

(** Every armed timeout is the one the pending map holds for the key of
    its change. *)
Definition registered (s : t) : Prop :=
  ∀ h tmo, timers s !! h = Some tmo →
           pendingDiffs s !! getChangeKey (change tmo) = Some h.

(** The invariant behind deduplication, for a tracker [s] and the keys
    [out] handed to [showDiff] since the last reset: an armed timeout
    carries a seen key that was not delivered, two armed timeouts carry
    different keys, delivered keys are seen, and no key was delivered
    twice. *)
Definition dedup (s : t) (out : list string) : Prop :=
  (∀ h tmo, timers s !! h = Some tmo →
      getChangeKey (change tmo) ∈ lastSeenChanges s
      ∧ (h < nextTimer s)%nat
      ∧ getChangeKey (change tmo) ∉ out)
  ∧ (∀ h1 h2 t1 t2, timers s !! h1 = Some t1 → timers s !! h2 = Some t2 →
      getChangeKey (change t1) = getChangeKey (change t2) → h1 = h2)
  ∧ (∀ k, k ∈ out → k ∈ lastSeenChanges s)
  ∧ NoDup out.

(** Key [k] is seen and no armed timeout carries it. *)
Definition settled (k : string) (s : t) : Prop :=
  k ∈ lastSeenChanges s
  ∧ ∀ h tmo, timers s !! h = Some tmo → getChangeKey (change tmo) ≠ k.

(** The bookkeeping invariant of a tracker in use: armed timeouts are
    registered, their handles were handed out already, and their keys
    are seen and belong to no callback still awaiting [showDiff]; the
    keys of such callbacks are seen too. *)
Definition wf (s : t) : Prop :=
  registered s
  ∧ (∀ h tmo, timers s !! h = Some tmo →
      (h < nextTimer s)%nat
      ∧ getChangeKey (change tmo) ∈ lastSeenChanges s
      ∧ getChangeKey (change tmo) ∉ awaiting s)
  ∧ (∀ k, k ∈ awaiting s → k ∈ lastSeenChanges s).

(** [reset()] and [dispose()] are called only while no callback awaits
    [showDiff]. *)
Fixpoint quietResets (s : t) (es : list event) : Prop :=
  match es with
  | [] => True
  | e :: es' =>
      (isReset e = true → awaiting s = []) ∧ quietResets (step s e).1 es'
  end.

(** A change record with the given identity, for examples. *)
Definition sampleChange (session uuid path : string) : FileChange.t :=
  {| FileChange.sessionId := session; FileChange.timestamp := "2025-01-01T00:00:00.000Z";
     FileChange.toolName := Write; FileChange.filePath := path;
     FileChange.oldContent := None; FileChange.newContent := Some "x";
     FileChange.gitBranch := None; FileChange.messageUuid := uuid;
     FileChange.parentUuid := None; FileChange.isDeleted := None;
     FileChange.isHeuristic := None |}.

End LiveDiffTracker.

(** ** The [HeuristicTracker] class *)
Module HeuristicTracker.

(** [vscode.Uri]: [toString()], [fsPath] and [scheme]. *)
Record Uri := mkUri {
  uriString : string;
  fsPath : string;
  scheme : string
}.

(** [vscode.TextDocument] as the tracker reads it. *)
Record TextDocument := mkDoc {
  uri : Uri;
  fileName : string;
  getText : string;
  languageId : string;
  isUntitled : bool
}.

(** The clock readings [showHeuristicDiff] takes:
    [new Date().toISOString()] and [Date.now()]. *)
Record Clock := mkClock {
  toISOString : string;
  now : N
}.

(** The callbacks handed to [setTimeout], by the handler that arms them,
    with what each closes over. *)
Inductive Task :=
| CreatedTask (u : Uri)
| ChangedTask (u : Uri)
| SaveTask (doc : TextDocument) (originalContent : string)
| UntitledTask (doc : TextDocument) (content : string).

Record t := mk {
  fileSnapshots : gmap string string;
  isEnabled : bool;
  delay : Z;
  showNotifications : bool;
  pendingChanges : gmap string nat;
  fileWatcher : bool;
  heuristicChanges : list FileChange.t;
  (** the host: armed timeouts, the next handle, and the callbacks that
      fired and wait for [openTextDocument], by the handle that started
      them *)
  timers : gmap nat (Task * Z);
  nextTimer : nat;
  opening : gmap nat Task
}.

Definition new : t :=
  {| fileSnapshots := ∅; isEnabled := false; delay := 500;
     showNotifications := false; pendingChanges := ∅; fileWatcher := false;
     heuristicChanges := []; timers := ∅; nextTimer := 0; opening := ∅ |}.

Definition getHeuristicChanges (s : t) : list FileChange.t := heuristicChanges s.

Definition withSnapshots (m : gmap string string) (s : t) : t :=
  {| fileSnapshots := m; isEnabled := isEnabled s; delay := delay s;
     showNotifications := showNotifications s;
     pendingChanges := pendingChanges s; fileWatcher := fileWatcher s;
     heuristicChanges := heuristicChanges s; timers := timers s;
     nextTimer := nextTimer s; opening := opening s |}.

Definition withPending (p : gmap string nat) (s : t) : t :=
  {| fileSnapshots := fileSnapshots s; isEnabled := isEnabled s;
     delay := delay s; showNotifications := showNotifications s;
     pendingChanges := p; fileWatcher := fileWatcher s;
     heuristicChanges := heuristicChanges s; timers := timers s;
     nextTimer := nextTimer s; opening := opening s |}.

Definition withTimers (tm : gmap nat (Task * Z)) (s : t) : t :=
  {| fileSnapshots := fileSnapshots s; isEnabled := isEnabled s;
     delay := delay s; showNotifications := showNotifications s;
     pendingChanges := pendingChanges s; fileWatcher := fileWatcher s;
     heuristicChanges := heuristicChanges s; timers := tm;
     nextTimer := nextTimer s; opening := opening s |}.

(** [setTimeout(task, this.delay)]: the new state and the handle. *)
Definition setTimeout (task : Task) (s : t) : t * nat :=
  ({| fileSnapshots := fileSnapshots s; isEnabled := isEnabled s;
      delay := delay s; showNotifications := showNotifications s;
      pendingChanges := pendingChanges s; fileWatcher := fileWatcher s;
      heuristicChanges := heuristicChanges s;
      timers := <[nextTimer s := (task, delay s)]> (timers s);
      nextTimer := S (nextTimer s); opening := opening s |},
   nextTimer s).

Definition setDelay (d : Z) (s : t) : t :=
  {| fileSnapshots := fileSnapshots s; isEnabled := isEnabled s; delay := d;
     showNotifications := showNotifications s;
     pendingChanges := pendingChanges s; fileWatcher := fileWatcher s;
     heuristicChanges := heuristicChanges s; timers := timers s;
     nextTimer := nextTimer s; opening := opening s |}.

Definition setShowNotifications (show : bool) (s : t) : t :=
  {| fileSnapshots := fileSnapshots s; isEnabled := isEnabled s;
     delay := delay s; showNotifications := show;
     pendingChanges := pendingChanges s; fileWatcher := fileWatcher s;
     heuristicChanges := heuristicChanges s; timers := timers s;
     nextTimer := nextTimer s; opening := opening s |}.

(** [showHeuristicDiff(fileName, beforeContent, afterContent, languageId)]:
    the record is pushed before the tree-view callback is called, and an
    exception of that callback is caught. *)
Definition heuristicChange (clock : Clock) (fileName beforeContent afterContent : string)
    : FileChange.t :=
  {| FileChange.sessionId := "heuristic";
     FileChange.timestamp := toISOString clock;
     FileChange.toolName := Heuristic;
     FileChange.filePath := fileName;
     FileChange.oldContent := Some beforeContent;
     FileChange.newContent := Some afterContent;
     FileChange.gitBranch := None;
     FileChange.messageUuid := "heuristic-" +:+ pretty (now clock);
     FileChange.parentUuid := None;
     FileChange.isDeleted := None;
     FileChange.isHeuristic := Some true |}.

Definition showHeuristicDiff (clock : Clock)
    (fileName beforeContent afterContent : string) (s : t) : t :=
  {| fileSnapshots := fileSnapshots s; isEnabled := isEnabled s;
     delay := delay s; showNotifications := showNotifications s;
     pendingChanges := pendingChanges s; fileWatcher := fileWatcher s;
     heuristicChanges :=
       heuristicChanges s ++ [heuristicChange clock fileName beforeContent afterContent];
     timers := timers s; nextTimer := nextTimer s; opening := opening s |}.

(** [reset()] *)
Definition reset (s : t) : t :=
  {| fileSnapshots := ∅; isEnabled := isEnabled s; delay := delay s;
     showNotifications := showNotifications s; pendingChanges := ∅;
     fileWatcher := fileWatcher s; heuristicChanges := heuristicChanges s;
     timers := clearTimeouts (values (pendingChanges s)) (timers s);
     nextTimer := nextTimer s; opening := opening s |}.

(** [dispose()] *)
Definition dispose (s : t) : t :=
  let s1 := reset s in
  {| fileSnapshots := fileSnapshots s1; isEnabled := isEnabled s1;
     delay := delay s1; showNotifications := showNotifications s1;
     pendingChanges := pendingChanges s1; fileWatcher := false;
     heuristicChanges := heuristicChanges s1; timers := timers s1;
     nextTimer := nextTimer s1; opening := opening s1 |}.

Section Host.
(** The answer of [shouldExcludeFile], which reads the exclusion
    patterns of the configuration and tests the regular expressions made
    from them; the configuration is fixed during a run. *)
Variable shouldExcludeFile : string -> bool.
(** Node's [path.relative] and [path.sep]. *)
Variable pathRelative : string -> string -> string.
Variable pathSep : ascii.

(** The body of the loop of [captureInitialSnapshots]. *)
Definition captureSnapshot (snaps : gmap string string) (doc : TextDocument)
    : gmap string string :=
  if negb (String.eqb (scheme (uri doc)) "file") then snaps
  else if shouldExcludeFile (fileName doc) then snaps
  else <[uriString (uri doc) := getText doc]> snaps.

(** [setEnabled(enabled)]; [visibleTextEditors] lists the documents of
    [vscode.window.visibleTextEditors] and [hasWorkspaceFolder] says
    whether [vscode.workspace.workspaceFolders] is non-empty. *)
Definition setEnabled (enabled : bool) (visibleTextEditors : list TextDocument)
    (hasWorkspaceFolder : bool) (s : t) : t :=
  if enabled then
    {| fileSnapshots := fold_left captureSnapshot visibleTextEditors (fileSnapshots s);
       isEnabled := enabled; delay := delay s;
       showNotifications := showNotifications s;
       pendingChanges := pendingChanges s;
       fileWatcher := if hasWorkspaceFolder then true else fileWatcher s;
       heuristicChanges := heuristicChanges s; timers := timers s;
       nextTimer := nextTimer s; opening := opening s |}
  else
    {| fileSnapshots := ∅; isEnabled := enabled; delay := delay s;
       showNotifications := showNotifications s; pendingChanges := ∅;
       fileWatcher := false; heuristicChanges := heuristicChanges s;
       timers := clearTimeouts (values (pendingChanges s)) (timers s);
       nextTimer := nextTimer s; opening := opening s |}.

(** The handler given to [fileWatcher.onDidCreate]. *)
Definition onDidCreate (u : Uri) (s : t) : t :=
  if negb (isEnabled s) then s
  else if shouldExcludeFile (fsPath u) then s
  else (setTimeout (CreatedTask u) s).1.

(** [relativePath.split(path.sep).length] *)
Definition pathDepth (workspaceRoot : string) (u : Uri) : nat :=
  length (Js.splitOn pathSep (pathRelative workspaceRoot (fsPath u))).

(** The handler given to [fileWatcher.onDidChange]; [workspaceRoot] is
    [workspaceFolders[0].uri.fsPath], or [None] without a workspace
    folder. *)
Definition onDidChange (u : Uri) (workspaceRoot : option string) (s : t) : t :=
  if negb (isEnabled s) then s
  else if shouldExcludeFile (fsPath u) then s
  else
    match fileSnapshots s !! uriString u with
    | Some _ => s
    | None =>
        let tooDeep :=
          match workspaceRoot with
          | Some root => (3 <? pathDepth root u)%nat
          | None => false
          end in
        if tooDeep then s
        else (setTimeout (ChangedTask u) s).1
    end.

Definition onWillSaveTextDocument (doc : TextDocument) (s : t) : t :=
  if negb (isEnabled s) then s
  else
    let u := uriString (uri doc) in
    if negb (String.eqb (scheme (uri doc)) "file") then s
    else if shouldExcludeFile (fileName doc) then s
    else
      let originalContent :=
        match fileSnapshots s !! u with
        | Some c => if Js.truthy c then c else EmptyString
        | None => EmptyString
        end in
      let s1 :=
        match pendingChanges s !! u with
        | Some old => withTimers (clearTimeout old (timers s)) s
        | None => s
        end in
      let r := setTimeout (SaveTask doc originalContent) s1 in
      withPending (<[u := r.2]> (pendingChanges r.1)) r.1.

Definition onDidOpenTextDocument (doc : TextDocument) (s : t) : t :=
  if negb (isEnabled s) then s
  else if negb (String.eqb (scheme (uri doc)) "file") then s
  else if shouldExcludeFile (fileName doc) then s
  else
    let u := uriString (uri doc) in
    let content := getText doc in
    let isNotInSnapshots :=
      match fileSnapshots s !! u with Some _ => false | None => true end in
    let s1 := withSnapshots (<[u := content]> (fileSnapshots s)) s in
    if isNotInSnapshots && (0 <? String.length content)%nat && isUntitled doc
    then (setTimeout (UntitledTask doc content) s1).1
    else s1.

Definition onDidCloseTextDocument (doc : TextDocument) (s : t) : t :=
  if negb (isEnabled s) then s
  else
    let u := uriString (uri doc) in
    let s1 := withSnapshots (delete u (fileSnapshots s)) s in
    match pendingChanges s1 !! u with
    | Some old =>
        withPending (delete u (pendingChanges s1))
          (withTimers (clearTimeout old (timers s1)) s1)
    | None => s1
    end.

Definition withOpening (o : gmap nat Task) (s : t) : t :=
  {| fileSnapshots := fileSnapshots s; isEnabled := isEnabled s;
     delay := delay s; showNotifications := showNotifications s;
     pendingChanges := pendingChanges s; fileWatcher := fileWatcher s;
     heuristicChanges := heuristicChanges s; timers := timers s;
     nextTimer := nextTimer s; opening := o |}.

(** An armed timeout fires.  The callback of [onDidOpenTextDocument]
    stores its record at once; the other three first call
    [openTextDocument] and wait for it. *)
Definition timerFires (h : nat) (clock : Clock) (s : t) : t :=
  match timers s !! h with
  | Some (task, _) =>
      let s1 := withTimers (delete h (timers s)) s in
      match task with
      | UntitledTask doc content =>
          showHeuristicDiff clock (fileName doc) EmptyString content s1
      | _ => withOpening (<[h := task]> (opening s1)) s1
      end
  | None => s
  end.

(** [openTextDocument] settles for the callback started by timeout [h]:
    with a document, or with an error ([None]), which the callback
    catches. *)
Definition documentOpened (h : nat) (result : option TextDocument) (clock : Clock)
    (s : t) : t :=
  match opening s !! h with
  | Some task =>
      let s1 := withOpening (delete h (opening s)) s in
      match task with
      | CreatedTask u =>
          match result with
          | Some doc =>
              let content := getText doc in
              if (0 <? String.length content)%nat then
                showHeuristicDiff clock (fsPath u) EmptyString content
                  (withSnapshots (<[uriString u := content]> (fileSnapshots s1)) s1)
              else s1
          | None => s1
          end
      | ChangedTask u =>
          match result with
          | Some doc =>
              let content := getText doc in
              if (0 <? String.length content)%nat
                 && (N.of_nat (String.length content) <? 10000)%N then
                showHeuristicDiff clock (fsPath u) EmptyString content
                  (withSnapshots (<[uriString u := content]> (fileSnapshots s1)) s1)
              else s1
          | None => s1
          end
      | SaveTask doc originalContent =>
          let u := uriString (uri doc) in
          let s2 :=
            match result with
            | Some savedDoc =>
                let savedContent := getText savedDoc in
                if negb (String.eqb originalContent savedContent) then
                  let s' := showHeuristicDiff clock (fileName doc)
                              originalContent savedContent s1 in
                  withSnapshots (<[u := savedContent]> (fileSnapshots s')) s'
                else s1
            | None => s1
            end in
          withPending (delete u (pendingChanges s2)) s2
      | UntitledTask _ _ => s1
      end
  | None => s
  end.

Inductive event :=
| SetEnabled (enabled : bool) (visibleTextEditors : list TextDocument)
    (hasWorkspaceFolder : bool)
| SetDelay (d : Z)
| SetShowNotifications (show : bool)
| DidCreate (u : Uri)
| DidChange (u : Uri) (workspaceRoot : option string)
| WillSave (doc : TextDocument)
| DidOpen (doc : TextDocument)
| DidClose (doc : TextDocument)
| TimerFires (h : nat) (clock : Clock)
| DocumentOpened (h : nat) (result : option TextDocument) (clock : Clock)
| Reset
| Dispose.

Definition step (s : t) (e : event) : t :=
  match e with
  | SetEnabled b vis ws => setEnabled b vis ws s
  | SetDelay d => setDelay d s
  | SetShowNotifications b => setShowNotifications b s
  | DidCreate u => onDidCreate u s
  | DidChange u root => onDidChange u root s
  | WillSave doc => onWillSaveTextDocument doc s
  | DidOpen doc => onDidOpenTextDocument doc s
  | DidClose doc => onDidCloseTextDocument doc s
  | TimerFires h clock => timerFires h clock s
  | DocumentOpened h result clock => documentOpened h result clock s
  | Reset => reset s
  | Dispose => dispose s
  end.

Definition run (s : t) (es : list event) : t := fold_left step es s.

End Host.

(** *** A host for examples

    No exclusion pattern is configured; [path.relative] is given for a
    file below the root, where it drops the root and the separator. *)
Definition noExclusions : string -> bool := fun _ => false.

Fixpoint dropPrefix (p s : string) : option string :=
  match p, s with
  | EmptyString, _ => Some s
  | String a p', String b s' => if Ascii.eqb a b then dropPrefix p' s' else None
  | String _ _, EmptyString => None
  end.

Definition relativeBelow (root path : string) : string :=
  match dropPrefix (root +:+ "/") path with
  | Some rest => rest
  | None => path
  end.

Definition fileUri (path : string) : Uri :=
  {| uriString := "file://" +:+ path; fsPath := path; scheme := "file" |}.

Definition fileDoc (path text : string) : TextDocument :=
  {| uri := fileUri path; fileName := path; getText := text;
     languageId := "typescript"; isUntitled := false |}.

Definition noon : Clock :=
  {| toISOString := "2025-01-01T12:00:00.000Z"; now := 1735732800000 |}.

End HeuristicTracker.

(** ** The rest of [parsers/session-parser.ts] *)
Module SessionLog.
Import Js.

(** [s.replace(/c/g, r)] for a pattern that is one literal code unit and a
    replacement of one code unit. *)
Fixpoint replaceChar (c r : ascii) (s : string) : string :=
  match s with
  | String d s' => String (if Ascii.eqb d c then r else d) (replaceChar c r s')
  | EmptyString => EmptyString
  end.

Definition backslash : ascii := ascii_of_N 92.

Definition encodeWorkspacePath (workspacePath : string) : string :=
  let normalized := replaceChar backslash "/" workspacePath in
  let encoded := replaceChar "/" "-" normalized in
  replaceChar ":" "-" encoded.

Definition decodeWorkspaceName (encodedName : string) : string :=
  replaceChar "-" "/" encodedName.

(** The code units [encodeWorkspacePath] rewrites, and the ones a path
    must avoid to come back from its encoding. *)
Definition isSeparatorOrColon (c : ascii) : bool :=
  Ascii.eqb c "/" || Ascii.eqb c backslash || Ascii.eqb c ":".

Definition isLossy (c : ascii) : bool :=
  Ascii.eqb c "-" || Ascii.eqb c backslash || Ascii.eqb c ":".

(** [array.slice(0, end)]: a negative [end] counts from the end of the
    array. *)
Definition slice0 {A : Type} (l : list A) (last : Z) : list A :=
  let len := Z.of_nat (length l) in
  let k := if (last <? 0)%Z then Z.max (len + last) 0 else Z.min last len in
  take (Z.to_nat k) l.

(** [[...new Set(xs)]]: the distinct values in the order of their first
    occurrence. *)
Definition setAdd (acc : list string) (x : string) : list string :=
  if decide (x ∈ acc) then acc else acc ++ [x].

Definition distinct (xs : list string) : list string := fold_left setAdd xs [].

(** An event of the log with the [cwd] it was written with, which
    [getSessionMetadata] reads beside the fields the extractor reads. *)
Record LoggedEvent := mkLogged {
  event : SessionEvent.t;
  cwd : string
}.

Record SessionMetadata := mkMetadata {
  sessionId : string;
  workspacePath : string;
  startTime : string;
  endTime : option string;
  gitBranch : option string;
  totalChanges : nat;
  filesModified : list string
}.

Definition getSessionMetadata (events : list LoggedEvent) : option SessionMetadata :=
  match events with
  | [] => None
  | firstEvent :: _ =>
      let lastEvent := List.last events firstEvent in
      let changes := SessionParser.extractFileChanges (event <$> events) in
      let filesModified := distinct (FileChange.filePath <$> changes) in
      Some {| sessionId := SessionEvent.sessionId (event firstEvent);
              workspacePath := cwd firstEvent;
              startTime := SessionEvent.timestamp (event firstEvent);
              endTime := Some (SessionEvent.timestamp (event lastEvent));
              gitBranch := SessionEvent.gitBranch (event firstEvent);
              totalChanges := length changes;
              filesModified := filesModified |}
  end.

Section Reader.
(** [parseLine]: [JSON.parse] under [try]/[catch], [None] when the line
    does not parse (or parses to a falsy value, which the caller drops
    too). *)
Variable parseLine : string -> option SessionEvent.t.
(** The file system as the parser sees it: the most recent session file of
    a workspace ([getMostRecentSessionFile]) and the text of a file, [None]
    when [fs.existsSync] says the file is not there. *)
Variable mostRecentSessionFile : string -> option string.
Variable readFile : string -> option string.

Definition lineFeed : ascii := ascii_of_N 10.

(** [content.split('\n').filter(line => line.trim())] *)
Definition nonBlankLines (content : string) : list string :=
  List.filter (fun line => truthy (trim line)) (splitOn lineFeed content).

(** The body of [for (const line of lines)]. *)
Definition pushParsed (events : list SessionEvent.t) (line : string)
    : list SessionEvent.t :=
  match parseLine line with
  | Some e => events ++ [e]
  | None => events
  end.

(** [parseSessionFile] on the text of the file. *)
Definition parseContent (content : string) : list SessionEvent.t :=
  fold_left pushParsed (nonBlankLines content) [].

Definition parseSessionFile (sessionFilePath : string) : list SessionEvent.t :=
  match readFile sessionFilePath with
  | None => []
  | Some content => parseContent content
  end.

Definition getCurrentSessionChanges (workspacePath : string) : list FileChange.t :=
  match mostRecentSessionFile workspacePath with
  | None => []
  | Some sessionFile => SessionParser.extractFileChanges (parseSessionFile sessionFile)
  end.

Definition getRecentChanges (workspacePath : string) (limit : Z) : list FileChange.t :=
  slice0 (getCurrentSessionChanges workspacePath) limit.

End Reader.

(** A record as [extractFileChanges] builds them: never a Heuristic one,
    always with a path, and shaped by its tool. *)
Definition extracted (r : FileChange.t) : Prop :=
  FileChange.filePath r ≠ EmptyString
  ∧ FileChange.isHeuristic r = None
  ∧ match FileChange.toolName r with
    | Edit => FileChange.isDeleted r = None
    | Write => FileChange.oldContent r = None ∧ FileChange.isDeleted r = None
    | Delete =>
        FileChange.isDeleted r = Some true
        ∧ FileChange.oldContent r = None ∧ FileChange.newContent r = None
        ∧ every (fun c => negb (isWhiteSpace c || isQuote c)) (FileChange.filePath r) = true
    | Heuristic => False
    end.

(** The record carries the identity of [e], an assistant event. *)
Definition stampedBy (e : SessionEvent.t) (r : FileChange.t) : Prop :=
  SessionEvent.type e = assistant
  ∧ FileChange.sessionId r = SessionEvent.sessionId e
  ∧ FileChange.timestamp r = SessionEvent.timestamp e
  ∧ FileChange.messageUuid r = SessionEvent.uuid e
  ∧ FileChange.parentUuid r = SessionEvent.parentUuid e
  ∧ FileChange.gitBranch r = SessionEvent.gitBranch e.

Definition isAssistant (e : SessionEvent.t) : bool :=
  match SessionEvent.type e with assistant => true | _ => false end.

(** A decoder for examples: a line is the uuid of a user event, and a line
    starting with [#] does not parse. *)
Definition sampleParseLine (line : string) : option SessionEvent.t :=
  if startsWith "#" line then None
  else Some {| SessionEvent.parentUuid := None; SessionEvent.sessionId := "s1";
               SessionEvent.gitBranch := None; SessionEvent.type := user;
               SessionEvent.message := None; SessionEvent.uuid := line;
               SessionEvent.timestamp := "2025-01-01T00:00:00.000Z" |}.

End SessionLog.

(** ** JavaScript [Map] with string keys, in insertion order *)
Module JsMap.

Fixpoint get {V : Type} (k : string) (m : list (string * V)) : option V :=
  match m with
  | [] => None
  | (k', v) :: m' => if decide (k' = k) then Some v else get k m'
  end.

(** [m.set(k, v)]: an existing key keeps its place, a new one goes last. *)
Fixpoint set {V : Type} (k : string) (v : V) (m : list (string * V))
    : list (string * V) :=
  match m with
  | [] => [(k, v)]
  | (k', v') :: m' => if decide (k' = k) then (k, v) :: m' else (k', v') :: set k v m'
  end.

Definition keys {V : Type} (m : list (string * V)) : list string := m.*1.

End JsMap.

(** ** The [DiffTracker] class of [diff-tracker/diff-tracker.ts] *)
Module DiffTracker.

(** The body of the loop of [groupChangesByFile]. *)
Definition groupStep (grouped : list (string * list FileChange.t))
    (change : FileChange.t) : list (string * list FileChange.t) :=
  let existing := default [] (JsMap.get (FileChange.filePath change) grouped) in
  JsMap.set (FileChange.filePath change) (existing ++ [change]) grouped.

Definition groupChangesByFile (changes : list FileChange.t)
    : list (string * list FileChange.t) :=
  fold_left groupStep changes [].

(** [content || ''] for an optional string property. *)
Definition orEmpty (content : option string) : string :=
  match content with
  | Some c => if Js.truthy c then c else EmptyString
  | None => EmptyString
  end.

Definition toolNameText (tool : ToolName) : string :=
  match tool with
  | Edit => "Edit" | Write => "Write" | Delete => "Delete" | Heuristic => "Heuristic"
  end.

(** The arguments of the [vscode.diff] command. *)
Record DiffCommand := mkDiff {
  original : string;
  modified : string;
  title : string;
  preview : bool
}.

Section Viewer.
(** Node's [path.basename] and [Date.prototype.toLocaleString] of a
    timestamp. *)
Variable basename : string -> string.
Variable toLocaleString : string -> string.

(** [createTempFile(content, filename)]: the storage directory is a map
    from file name to content, and the returned Uri is named by the file
    name. *)
Definition createTempFile (content filename : string) (dir : gmap string string)
    : gmap string string * string :=
  (<[filename := content]> dir, filename).

Definition showDiff (change : FileChange.t) (dir : gmap string string)
    : gmap string string * DiffCommand :=
  let filePath := FileChange.filePath change in
  let before := createTempFile (orEmpty (FileChange.oldContent change))
                  ("before-" +:+ basename filePath) dir in
  let after := createTempFile (orEmpty (FileChange.newContent change))
                 ("after-" +:+ basename filePath) before.1 in
  let timestamp := toLocaleString (FileChange.timestamp change) in
  let title := basename filePath +:+ " - " +:+ toolNameText (FileChange.toolName change)
               +:+ " @ " +:+ timestamp in
  (after.1, {| original := before.2; modified := after.2; title := title;
               preview := true |}).

End Viewer.

End DiffTracker.

(** ** Pure helpers of the [HeuristicTracker] class and of the tree view *)
Module Helpers.

(** *** [shouldExcludeFile]: from a glob pattern to the source of a
    regular expression *)

(** [s.replace(/\*\*/g, '.*')]: the matches are taken from left to right
    and do not overlap. *)
Fixpoint replaceStarStar (s : string) : string :=
  match s with
  | String c r =>
      if Ascii.eqb c "*" then
        match r with
        | String d r' =>
            if Ascii.eqb d "*" then ".*" +:+ replaceStarStar r'
            else String c (replaceStarStar r)
        | EmptyString => String c EmptyString
        end
      else String c (replaceStarStar r)
  | EmptyString => EmptyString
  end.

(** [s.replace(/c/g, r)] for a pattern that is one literal code unit. *)
Fixpoint replaceEach (c : ascii) (r : string) (s : string) : string :=
  match s with
  | String d s' =>
      if Ascii.eqb d c then r +:+ replaceEach c r s' else String d (replaceEach c r s')
  | EmptyString => EmptyString
  end.

Definition globToRegexSource (pattern : string) : string :=
  replaceEach "?" "[^/]" (replaceEach "*" "[^/]*" (replaceStarStar pattern)).

(** The same translation in one pass over the pattern. *)
Fixpoint translateGlob (s : string) : string :=
  match s with
  | String c r =>
      if Ascii.eqb c "*" then
        match r with
        | String d r' =>
            if Ascii.eqb d "*" then ".[^/]*" +:+ translateGlob r'
            else "[^/]*" +:+ translateGlob r
        | EmptyString => "[^/]*"
        end
      else if Ascii.eqb c "?" then "[^/]" +:+ translateGlob r
      else String c (translateGlob r)
  | EmptyString => EmptyString
  end.

(** *** [getNextViewColumn] *)
Inductive ViewColumn :=
| Active | Beside | One | Two | Three | Four | Five | Six | Seven | Eight | Nine.

Definition ViewColumn_eqb (a b : ViewColumn) : bool :=
  match a, b with
  | Active, Active | Beside, Beside | One, One | Two, Two | Three, Three
  | Four, Four | Five, Five | Six, Six | Seven, Seven | Eight, Eight
  | Nine, Nine => true
  | _, _ => false
  end.

Definition columnsToTry : list ViewColumn :=
  [Two; Three; Four; Five; Six; Seven; Eight; Nine].

(** [usedColumns.has(c)] *)
Definition has (usedColumns : list ViewColumn) (c : ViewColumn) : bool :=
  existsb (ViewColumn_eqb c) usedColumns.

(** [maxOpenDiffs] is the setting [liveMaxOpenDiffs], a whole number;
    [usedColumns] holds the columns of the visible editors. *)
Definition getNextViewColumn (maxOpenDiffs : Z) (usedColumns : list ViewColumn)
    : ViewColumn :=
  if (0 <? maxOpenDiffs)%Z then
    let within := take (Z.to_nat (Z.min maxOpenDiffs (Z.of_nat (length columnsToTry))))
                       columnsToTry in
    match List.find (fun c => negb (has usedColumns c)) within with
    | Some c => c
    | None => Two
    end
  else
    match List.find (fun c => negb (has usedColumns c)) columnsToTry with
    | Some c => c
    | None => Beside
    end.

(** Place of a column among the candidates, counted from 1. *)
Definition rank (c : ViewColumn) : Z :=
  match c with
  | Two => 1 | Three => 2 | Four => 3 | Five => 4 | Six => 5 | Seven => 6
  | Eight => 7 | Nine => 8 | _ => 0
  end.

(** *** [formatTimeAgo] of the tree items

    [nowMs] and [dateMs] are the two [getTime()] readings, whole numbers
    of milliseconds; [Math.floor] of a quotient by a positive number is
    [Z.div]. *)
Definition formatTimeAgo (nowMs dateMs : Z) : string :=
  let diffMs := (nowMs - dateMs)%Z in
  let diffSec := (diffMs / 1000)%Z in
  let diffMin := (diffSec / 60)%Z in
  let diffHour := (diffMin / 60)%Z in
  let diffDay := (diffHour / 24)%Z in
  if (0 <? diffDay)%Z then pretty diffDay +:+ "d ago"
  else if (0 <? diffHour)%Z then pretty diffHour +:+ "h ago"
  else if (0 <? diffMin)%Z then pretty diffMin +:+ "m ago"
  else "just now".

(** *** [getBaseName] *)

(** The class [[/\\]] of the pattern. *)
Definition isPathSeparator (c : ascii) : bool :=
  Ascii.eqb c "/" || Ascii.eqb c SessionLog.backslash.

(** [s.split(/x/)] for a class [x] of single code units. *)
Fixpoint splitWhere_go (p : ascii -> bool) (cur : string) (s : string) : list string :=
  match s with
  | EmptyString => [cur]
  | String c s' =>
      if p c then cur :: splitWhere_go p EmptyString s'
      else splitWhere_go p (cur +:+ String c EmptyString) s'
  end.

Definition splitWhere (p : ascii -> bool) (s : string) : list string :=
  splitWhere_go p EmptyString s.

(** [filePath.split(/[/\\]/).pop() || filePath]; the array of a split is
    never empty, so [pop] returns its last fragment. *)
Definition getBaseName (filePath : string) : string :=
  let popped := List.last (splitWhere isPathSeparator filePath) EmptyString in
  if Js.truthy popped then popped else filePath.

End Helpers.

(** * Properties *)

(** ** String primitives *)
Module JsFacts.
Import Js.

Lemma every_app p s1 s2 : every p (s1 +:+ s2) = every p s1 && every p s2.
Proof.
  induction s1 as [|c s1 IH]; simpl; [done|].
  rewrite IH. by rewrite andb_assoc.
Qed.

Lemma every_rev_acc p s acc :
  every p (rev_acc s acc) = every p s && every p acc.
Proof.
  revert acc. induction s as [|c s IH]; intros acc; simpl; [done|].
  rewrite IH. simpl. destruct (p c), (every p s); simpl; try done.
Qed.

Lemma every_rev p s : every p (rev s) = every p s.
Proof. unfold rev. rewrite every_rev_acc. simpl. by rewrite andb_true_r. Qed.

Lemma rev_acc_involutive s acc1 acc2 :
  rev_acc (rev_acc s acc1) acc2 = rev_acc acc1 (s +:+ acc2).
Proof.
  revert acc1 acc2. induction s as [|c s IH]; intros acc1 acc2; simpl; [done|].
  rewrite IH. done.
Qed.

Lemma append_empty_r s : s +:+ EmptyString = s.
Proof.
  induction s as [|c s IH]; [done|].
  change (String c s +:+ EmptyString) with (String c (s +:+ EmptyString)).
  by rewrite IH.
Qed.

Lemma rev_involutive s : rev (rev s) = s.
Proof. unfold rev. rewrite rev_acc_involutive. cbn [rev_acc]. apply append_empty_r. Qed.

Lemma dropWhile_none p s :
  every (fun c => negb (p c)) s = true -> dropWhile p s = s.
Proof.
  destruct s as [|c s]; simpl; [done|].
  intros [Hc _]%andb_true_iff. by destruct (p c).
Qed.

(** Trimming leaves a string without white space as it is. *)
Lemma trim_no_space s :
  every (fun c => negb (isWhiteSpace c)) s = true -> trim s = s.
Proof.
  intros H. unfold trim.
  rewrite (dropWhile_none _ s H).
  rewrite dropWhile_none by (by rewrite every_rev).
  apply rev_involutive.
Qed.

Lemma every_removeAll p s : every (fun c => negb (p c)) (removeAll p s) = true.
Proof.
  induction s as [|c s IH]; simpl; [done|].
  destruct (p c) eqn:E; simpl; [done|]. by rewrite E, IH.
Qed.

Lemma splitWs_go_no_space b cur s :
  every (fun c => negb (isWhiteSpace c)) cur = true ->
  Forall (fun p => every (fun c => negb (isWhiteSpace c)) p = true)
         (splitWs_go b cur s).
Proof.
  revert b cur. induction s as [|c s IH]; intros b cur Hcur; simpl.
  - by constructor.
  - destruct (isWhiteSpace c) eqn:E.
    + destruct b; [by apply IH|]. constructor; [done|]. by apply IH.
    + apply IH. rewrite every_app, Hcur. simpl. by rewrite E.
Qed.

(** The fragments of [split(/\s+/)] hold no white space. *)
Lemma splitWs_no_space s :
  Forall (fun p => every (fun c => negb (isWhiteSpace c)) p = true) (splitWs s).
Proof. by apply splitWs_go_no_space. Qed.

End JsFacts.

(** ** The change extractor *)
Module SessionParserFacts.
Import Js SessionParser.

Lemma fold_pushDelete event paths changes :
  fold_left (pushDelete event) paths changes
  = changes ++ fold_left (pushDelete event) paths [].
Proof.
  revert changes. induction paths as [|p paths IH]; intros changes; simpl.
  - by rewrite app_nil_r.
  - rewrite IH, (IH (pushDelete event [] p)). unfold pushDelete.
    destruct (truthy (cleanPath p)); simpl; [|done].
    by rewrite <- app_assoc.
Qed.

(** Each loop body only appends to the array it is given. *)
Lemma processItem_appends event changes item :
  processItem event changes item = changes ++ itemChanges event item.
Proof.
  unfold itemChanges, processItem.
  destruct item as [|id name input|]; try by rewrite app_nil_r.
  repeat case_match; simpl;
    first [done | by rewrite app_nil_r | apply fold_pushDelete].
Qed.

Lemma fold_processItem event items changes :
  fold_left (processItem event) items changes
  = changes ++ flat_map (itemChanges event) items.
Proof.
  revert changes. induction items as [|i items IH]; intros changes; simpl.
  - by rewrite app_nil_r.
  - rewrite IH, processItem_appends. by rewrite <- app_assoc.
Qed.

Lemma processEvent_appends changes event :
  processEvent changes event
  = changes ++ flat_map (itemChanges event) (walkedItems event).
Proof.
  unfold processEvent, walkedItems.
  destruct (contentItems event); simpl.
  - apply fold_processItem.
  - by rewrite app_nil_r.
Qed.

Lemma fold_processEvent events changes :
  fold_left processEvent events changes
  = changes ++ flat_map (fun event => flat_map (itemChanges event) (walkedItems event)) events.
Proof.
  revert changes. induction events as [|e events IH]; intros changes; simpl.
  - by rewrite app_nil_r.
  - rewrite IH, processEvent_appends. by rewrite <- app_assoc.
Qed.

Lemma extract_flat events :
  extractFileChanges events
  = flat_map (fun event => flat_map (itemChanges event) (walkedItems event)) events.
Proof. unfold extractFileChanges. by rewrite fold_processEvent. Qed.

Lemma extract_app events1 events2 :
  extractFileChanges (events1 ++ events2)
  = extractFileChanges events1 ++ extractFileChanges events2.
Proof. rewrite !extract_flat. apply flat_map_app. Qed.

(** The deletions of one [rm] group: quote removal is applied to each
    white-space fragment, and trimming changes none of them. *)
Lemma fold_pushDelete_fragments event group1 :
  fold_left (pushDelete event) (rmFilePaths group1) []
  = deleteChange event <$>
      List.filter truthy (removeAll isQuote <$> rmFilePaths group1).
Proof.
  rewrite fold_pushDelete. simpl.
  assert (Hns : Forall (fun p => every (fun c => negb (isWhiteSpace c)) p = true)
                       (rmFilePaths group1)).
  { unfold rmFilePaths. apply Forall_forall.
    intros p [Hp _]%list_elem_of_In%filter_In. apply list_elem_of_In in Hp.
    revert p Hp. apply Forall_forall, JsFacts.splitWs_no_space. }
  induction Hns as [|p ps Hp _ IH]; simpl; [done|].
  rewrite fold_pushDelete, IH. unfold pushDelete, cleanPath. simpl.
  rewrite (JsFacts.trim_no_space p Hp).
  by destruct (truthy (removeAll isQuote p)).
Qed.

(** The records of an item depend on the event only through the five
    fields copied into them. *)
Lemma itemChanges_identity e1 e2 item :
  SessionEvent.sessionId e1 = SessionEvent.sessionId e2 →
  SessionEvent.timestamp e1 = SessionEvent.timestamp e2 →
  SessionEvent.gitBranch e1 = SessionEvent.gitBranch e2 →
  SessionEvent.uuid e1 = SessionEvent.uuid e2 →
  SessionEvent.parentUuid e1 = SessionEvent.parentUuid e2 →
  itemChanges e1 item = itemChanges e2 item.
Proof.
  destruct e1, e2. cbn. intros -> -> -> -> ->.
  unfold itemChanges, processItem.
  by destruct item as [|id name input|].
Qed.

(** The whole extraction around one content item: the item sits among
    other items of an assistant event, which sits among other events. *)
Lemma extract_holding before after parent session branch uuid timestamp pre item post :
  extractFileChanges
    (before ++ [assistantEvent parent session branch uuid timestamp (pre ++ item :: post)]
     ++ after)
  = extractFileChanges before
    ++ extractFileChanges [assistantEvent parent session branch uuid timestamp pre]
    ++ itemChanges (assistantEvent parent session branch uuid timestamp [item]) item
    ++ extractFileChanges [assistantEvent parent session branch uuid timestamp post]
    ++ extractFileChanges after.
Proof.
  rewrite !extract_app. f_equal. rewrite !extract_flat.
  cbn [flat_map]. rewrite !app_nil_r.
  change (walkedItems (assistantEvent parent session branch uuid timestamp
                         (pre ++ item :: post))) with (pre ++ item :: post).
  change (walkedItems (assistantEvent parent session branch uuid timestamp pre)) with pre.
  change (walkedItems (assistantEvent parent session branch uuid timestamp post)) with post.
  rewrite flat_map_app. cbn [flat_map]. rewrite <- ?app_assoc.
  set (e := assistantEvent parent session branch uuid timestamp (pre ++ item :: post)).
  assert (Hid : ∀ items i,
            itemChanges e i
            = itemChanges (assistantEvent parent session branch uuid timestamp items) i)
    by (intros; by apply itemChanges_identity).
  rewrite (Hid [item] item).
  rewrite (flat_map_ext _ _ (Hid pre)), (flat_map_ext _ _ (Hid post)).
  reflexivity.
Qed.

(** C4.  In an assistant event, the Bash command [rm file1.txt file2.txt]
    becomes exactly two Delete records ([isDeleted] true, neither content
    field present) that carry the same [messageUuid], [parentUuid] and
    [timestamp], those of the event; [rm -rf ./build] becomes exactly one
    Delete record, for [./build], and the flag token [-rf] is no path.
    The first two equations are about the item met in any event, after
    any records already collected; the last two about the whole
    extraction of an assistant event that holds that one item. *)
Theorem rm_commands_to_delete_records
    (event : SessionEvent.t) (id : string) (fp os ns ct : option string)
    (changes : list FileChange.t) :
  let bash cmd := ToolUseContent id "Bash" (mkToolInput fp os ns ct (Some cmd)) in
  let holding cmd :=
    assistantEvent (SessionEvent.parentUuid event) (SessionEvent.sessionId event)
      (SessionEvent.gitBranch event) (SessionEvent.uuid event)
      (SessionEvent.timestamp event) [bash cmd] in
  let deleted path :=
    {| FileChange.sessionId := SessionEvent.sessionId event;
       FileChange.timestamp := SessionEvent.timestamp event;
       FileChange.toolName := Delete; FileChange.filePath := path;
       FileChange.oldContent := None; FileChange.newContent := None;
       FileChange.gitBranch := SessionEvent.gitBranch event;
       FileChange.messageUuid := SessionEvent.uuid event;
       FileChange.parentUuid := SessionEvent.parentUuid event;
       FileChange.isDeleted := Some true; FileChange.isHeuristic := None |} in
  processItem event changes (bash "rm file1.txt file2.txt")
    = changes ++ [deleted "file1.txt"; deleted "file2.txt"]
  /\ processItem event changes (bash "rm -rf ./build")
    = changes ++ [deleted "./build"]
  /\ extractFileChanges [holding "rm file1.txt file2.txt"]
    = [deleted "file1.txt"; deleted "file2.txt"]
  /\ extractFileChanges [holding "rm -rf ./build"] = [deleted "./build"].
Proof.
  intros bash holding deleted.
  repeat split; try reflexivity.
  all: rewrite processItem_appends; reflexivity.
Qed.

(** C5.  For an Edit or Write tool-use item of an assistant event,
    wherever it stands among the content items of the event and wherever
    the event stands in the input: without [file_path] (absent, or the
    empty string) the item adds no record to what [extractFileChanges]
    returns; an Edit with a non-empty [file_path] and [old_string] and
    [new_string] both the empty string adds exactly one record, whose
    [oldContent] and [newContent] are present and empty; a Write with a
    non-empty [file_path] and [content] the empty string adds exactly one
    record, with that empty [newContent].  The first four equations are
    the same facts about the loop body, after any records already
    collected. *)
Theorem edit_write_items
    (event : SessionEvent.t) (changes : list FileChange.t) (id : string)
    (isEdit : bool) (os ns ct cmd : option string) (c : ascii) (rest : string)
    (before after : list SessionEvent.t) (pre post : list MessageContent) :
  let name := if isEdit then "Edit" else "Write" in
  let path := String c rest in
  let record tool old new :=
    {| FileChange.sessionId := SessionEvent.sessionId event;
       FileChange.timestamp := SessionEvent.timestamp event;
       FileChange.toolName := tool; FileChange.filePath := path;
       FileChange.oldContent := old; FileChange.newContent := new;
       FileChange.gitBranch := SessionEvent.gitBranch event;
       FileChange.messageUuid := SessionEvent.uuid event;
       FileChange.parentUuid := SessionEvent.parentUuid event;
       FileChange.isDeleted := None; FileChange.isHeuristic := None |} in
  let holding items :=
    assistantEvent (SessionEvent.parentUuid event) (SessionEvent.sessionId event)
      (SessionEvent.gitBranch event) (SessionEvent.uuid event)
      (SessionEvent.timestamp event) items in
  let extracts item records :=
    extractFileChanges (before ++ [holding (pre ++ item :: post)] ++ after)
    = extractFileChanges before ++ extractFileChanges [holding pre]
      ++ records
      ++ extractFileChanges [holding post] ++ extractFileChanges after in
  processItem event changes
      (ToolUseContent id name (mkToolInput None os ns ct cmd)) = changes
  /\ processItem event changes
      (ToolUseContent id name (mkToolInput (Some EmptyString) os ns ct cmd)) = changes
  /\ processItem event changes
      (ToolUseContent id "Edit"
         (mkToolInput (Some path) (Some EmptyString) (Some EmptyString) ct cmd))
     = changes ++ [record Edit (Some EmptyString) (Some EmptyString)]
  /\ processItem event changes
      (ToolUseContent id "Write" (mkToolInput (Some path) os ns (Some EmptyString) cmd))
     = changes ++ [record Write None (Some EmptyString)]
  /\ extracts (ToolUseContent id name (mkToolInput None os ns ct cmd)) []
  /\ extracts (ToolUseContent id name (mkToolInput (Some EmptyString) os ns ct cmd)) []
  /\ extracts
       (ToolUseContent id "Edit"
          (mkToolInput (Some path) (Some EmptyString) (Some EmptyString) ct cmd))
       [record Edit (Some EmptyString) (Some EmptyString)]
  /\ extracts
       (ToolUseContent id "Write" (mkToolInput (Some path) os ns (Some EmptyString) cmd))
       [record Write None (Some EmptyString)]
  /\ extractFileChanges
       [holding [ToolUseContent id "Edit"
                   (mkToolInput (Some path) (Some EmptyString) (Some EmptyString) ct cmd)]]
     = [record Edit (Some EmptyString) (Some EmptyString)]
  /\ extractFileChanges
       [holding [ToolUseContent id "Write"
                   (mkToolInput (Some path) os ns (Some EmptyString) cmd)]]
     = [record Write None (Some EmptyString)].
Proof.
  intros name path record holding extracts. subst name extracts.
  split; [by destruct isEdit|]. split; [by destruct isEdit|].
  split; [reflexivity|]. split; [reflexivity|].
  cbv beta. unfold holding. rewrite !extract_holding.
  split; [by destruct isEdit|]. split; [by destruct isEdit|].
  split; [reflexivity|]. split; [reflexivity|].
  split; reflexivity.
Qed.

(** C8.  The extracted records are the concatenation, event by event in
    input order and, inside an event, content item by content item in
    input order, of the records each item yields; so the records of an
    earlier part of the input all come before those of a later part, and
    two records keep the order of their events whatever their timestamps
    say. *)
Theorem extraction_keeps_input_order (events events' : list SessionEvent.t)
    (parent : option string) (session uuid path t1 t2 : string) :
  let write t :=
    assistantEvent parent session None uuid t
      [ToolUseContent "id" "Write"
         (mkToolInput (Some (String "f" path)) None None (Some "x") None)] in
  extractFileChanges events
    = flat_map (fun event => flat_map (itemChanges event) (walkedItems event)) events
  /\ extractFileChanges (events ++ events')
    = extractFileChanges events ++ extractFileChanges events'
  /\ FileChange.timestamp <$> extractFileChanges [write t1; write t2] = [t1; t2].
Proof.
  intros write. split; [apply extract_flat|]. split; [apply extract_app|].
  reflexivity.
Qed.

(** C9.  For a Bash item whose command holds a recognised [rm], the
    candidate paths are the white-space fragments of the text after [rm]
    and its optional flag group, cut before any quote is removed; each
    fragment then loses every quote character it holds, wherever it
    stands, and yields one Delete record unless nothing is left of it.
    This is what [extractFileChanges] returns for the item, wherever it
    stands among the content items of an assistant event and wherever the
    event stands in the input.  So [rm] with the double-quoted argument
    [my file.txt] makes [extractFileChanges] return two Delete records,
    for [my] and for [file.txt], and [rm it's] one, for [its]. *)
Theorem rm_paths_split_before_unquoting
    (event : SessionEvent.t) (changes : list FileChange.t) (id cmd p : string)
    (fp os ns ct : option string)
    (before after : list SessionEvent.t) (pre post : list MessageContent) :
  let bash c := ToolUseContent id "Bash" (mkToolInput fp os ns ct (Some c)) in
  let paths c := FileChange.filePath <$> itemChanges event (bash c) in
  let holding items :=
    assistantEvent (SessionEvent.parentUuid event) (SessionEvent.sessionId event)
      (SessionEvent.gitBranch event) (SessionEvent.uuid event)
      (SessionEvent.timestamp event) items in
  let deletions c :=
    match rmMatch c with
    | Some group1 =>
        deleteChange event <$>
          List.filter truthy (removeAll isQuote <$> rmFilePaths group1)
    | None => []
    end in
  processItem event changes (bash cmd) = changes ++ deletions cmd
  /\ every (fun c => negb (isQuote c)) (removeAll isQuote p) = true
  /\ rmMatch ("rm -f " +:+ quoted "my file.txt") = Some (quoted "my file.txt")
  /\ paths ("rm " +:+ quoted "my file.txt") = ["my"; "file.txt"]
  /\ paths "rm it's" = ["its"]
  /\ extractFileChanges (before ++ [holding (pre ++ bash cmd :: post)] ++ after)
     = extractFileChanges before ++ extractFileChanges [holding pre]
       ++ deletions cmd
       ++ extractFileChanges [holding post] ++ extractFileChanges after
  /\ extractFileChanges [holding [bash cmd]] = deletions cmd
  /\ extractFileChanges [holding [bash ("rm " +:+ quoted "my file.txt")]]
     = [deleteChange event "my"; deleteChange event "file.txt"]
  /\ extractFileChanges [holding [bash "rm it's"]] = [deleteChange event "its"].
Proof.
  intros bash paths holding deletions.
  assert (Hitem : ∀ e, itemChanges e (bash cmd)
            = match rmMatch cmd with
              | Some group1 =>
                  deleteChange e <$>
                    List.filter truthy (removeAll isQuote <$> rmFilePaths group1)
              | None => []
              end).
  { intros e. unfold itemChanges, bash, processItem. simpl.
    replace (if truthy cmd then cmd else EmptyString) with cmd
      by (by destruct cmd).
    destruct (rmMatch cmd); [apply fold_pushDelete_fragments|done]. }
  split; [by rewrite processItem_appends, Hitem|].
  split; [apply JsFacts.every_removeAll|].
  split; [reflexivity|]. split; [reflexivity|]. split; [reflexivity|].
  split; [|split; [|split; reflexivity]].
  - unfold holding. rewrite extract_holding, Hitem. reflexivity.
  - rewrite extract_flat. cbn [flat_map]. rewrite !app_nil_r.
    change (walkedItems (holding [bash cmd])) with [bash cmd].
    cbn [flat_map]. rewrite app_nil_r, Hitem. reflexivity.
Qed.

End SessionParserFacts.

(** ** The timeout table *)
Module TimeoutFacts.

Section TimeoutTable.
Context {A : Type}.
Implicit Types (tm : gmap nat A) (hs : list nat).

Lemma lookup_clearTimeouts hs tm h :
  clearTimeouts hs tm !! h = if decide (h ∈ hs) then None else tm !! h.
Proof.
  induction hs as [|x hs IH]; cbn [clearTimeouts foldr].
  - destruct (decide (h ∈ [])) as [Hin|_]; [by apply elem_of_nil in Hin|done].
  - fold (clearTimeouts hs tm). unfold clearTimeout at 1.
    destruct (decide (x = h)) as [->|Hne].
    + rewrite lookup_delete_eq.
      destruct (decide (h ∈ h :: hs)) as [_|Hn]; [done|set_solver].
    + rewrite lookup_delete_ne by done. rewrite IH.
      destruct (decide (h ∈ hs)), (decide (h ∈ x :: hs)); set_solver.
Qed.

Lemma clearTimeouts_Some hs tm h a :
  clearTimeouts hs tm !! h = Some a → tm !! h = Some a.
Proof. rewrite lookup_clearTimeouts. by case_decide. Qed.

Lemma elem_of_values (m : gmap string nat) h :
  h ∈ values m ↔ ∃ k, m !! k = Some h.
Proof.
  unfold values. rewrite list_elem_of_fmap. split.
  - intros [[k h'] [-> Hin%elem_of_map_to_list]]. by exists k.
  - intros [k Hk]. exists (k, h). split; [done|]. by apply elem_of_map_to_list.
Qed.

Lemma clearTimeouts_cancels (m : gmap string nat) tm k h :
  m !! k = Some h → clearTimeouts (values m) tm !! h = None.
Proof.
  intros Hk. rewrite lookup_clearTimeouts.
  rewrite decide_True; [done|]. apply elem_of_values. by exists k.
Qed.
End TimeoutTable.

End TimeoutFacts.

(** ** The live tracker *)
Module LiveDiffTrackerFacts.
Import LiveDiffTracker TimeoutFacts.

Lemma registered_cleared s :
  registered s → clearTimeouts (values (pendingDiffs s)) (timers s) = ∅.
Proof.
  intros Hreg. apply map_eq. intros h. rewrite lookup_empty.
  destruct (clearTimeouts _ _ !! h) as [tmo|] eqn:E; [|done].
  pose proof (clearTimeouts_Some _ _ _ _ E) as Ht.
  apply Hreg in Ht. by rewrite (clearTimeouts_cancels _ _ _ _ Ht) in E.
Qed.

(** *** The first loop of [processChanges] *)
Lemma identifyNew_spec cs nc0 seen0 :
  ∃ new,
    (fold_left identifyNew cs (nc0, seen0)).1 = nc0 ++ new
    ∧ (fold_left identifyNew cs (nc0, seen0)).2
      = seen0 ∪ list_to_set (getChangeKey <$> cs)
    ∧ NoDup (getChangeKey <$> new)
    ∧ (∀ c, c ∈ new → (getChangeKey c ∉ seen0) ∧ c ∈ cs).
Proof.
  revert nc0 seen0. induction cs as [|c cs IH]; intros nc0 seen0; simpl.
  - exists []. rewrite app_nil_r. repeat split; [set_solver|constructor|set_solver..].
  - unfold identifyNew at 2 4. simpl. case_decide as Hin.
    + destruct (IH nc0 seen0) as (new & E1 & E2 & Hnd & Hnew).
      exists new. repeat split; [done|set_solver|done|set_solver..].
    + destruct (IH (nc0 ++ [c]) (seen0 ∪ {[getChangeKey c]}))
        as (new & E1 & E2 & Hnd & Hnew).
      exists (c :: new). split; [by rewrite E1, <- app_assoc|].
      split; [set_solver|]. split.
      * simpl. constructor; [|done]. intros (c' & Hk & Hc')%list_elem_of_fmap.
        apply Hnew in Hc'. set_solver.
      * intros c' [->|Hc']%elem_of_cons; [set_solver|].
        apply Hnew in Hc'. set_solver.
Qed.

(** *** Scheduling *)
Lemma scheduleDiff_timers s c h tmo :
  timers (scheduleDiff s c) !! h = Some tmo →
  (h = nextTimer s ∧ tmo = mkTimeout c (delay s)) ∨ timers s !! h = Some tmo.
Proof.
  unfold scheduleDiff. simpl. intros H.
  apply lookup_insert_Some in H as [[<- <-]|[Hne H]]; [by left|right].
  destruct (pendingDiffs s !! getChangeKey c); [|done].
  unfold clearTimeout in H. by apply lookup_delete_Some in H as [_ H].
Qed.

Lemma fold_scheduleDiff_seen nc s :
  lastSeenChanges (fold_left scheduleDiff nc s) = lastSeenChanges s.
Proof. revert s. induction nc as [|c nc IH]; intros s; simpl; [done|]. by rewrite IH. Qed.

Lemma fold_scheduleDiff_timers nc s h tmo :
  timers (fold_left scheduleDiff nc s) !! h = Some tmo →
  change tmo ∈ nc ∨ timers s !! h = Some tmo.
Proof.
  revert s. induction nc as [|c nc IH]; intros s; simpl; [by right|].
  intros [Hin|H]%IH; [left; set_solver|].
  apply scheduleDiff_timers in H as [[_ ->]|H]; [left; set_solver|by right].
Qed.

Lemma withSeen_id s : withSeen (lastSeenChanges s) s = s.
Proof. by destruct s. Qed.

(** What [processChanges] does when it gets past its guards. *)
Lemma processChanges_unfold cs s :
  isEnabled s = true → cs ≠ [] →
  ∃ new,
    processChanges cs false s
    = fold_left scheduleDiff new
        (withSeen (lastSeenChanges s ∪ list_to_set (getChangeKey <$> cs)) s)
    ∧ NoDup (getChangeKey <$> new)
    ∧ (∀ c, c ∈ new → (getChangeKey c ∉ lastSeenChanges s) ∧ c ∈ cs).
Proof.
  intros Hen Hne. unfold processChanges. rewrite Hen. simpl.
  destruct cs as [|c0 cs0]; [done|]. cbn [length Nat.eqb].
  destruct (identifyNew_spec (c0 :: cs0) [] (lastSeenChanges s))
    as (new & E1 & E2 & Hnd & Hnew).
  exists new. rewrite E1, E2. simpl. split; [|done].
  by destruct new.
Qed.

(** Without suppression, or disabled, or without records, nothing
    changes. *)
Lemma processChanges_skipped cs skip s :
  isEnabled s = false ∨ cs = [] ∨ skip = true → processChanges cs skip s = s.
Proof.
  unfold processChanges. intros [-> | [-> | ->]]; simpl; [done | | ].
  - by rewrite orb_true_r.
  - by destruct (negb (isEnabled s) || (length cs =? 0)%nat).
Qed.

(** *** Deduplication *)
Lemma dedup_withSeen s out seen :
  dedup s out → lastSeenChanges s ⊆ seen → dedup (withSeen seen s) out.
Proof.
  intros (Ht & Hinj & Hout & Hnd) Hsub.
  split; [|split; [|split]]; simpl; try done.
  - intros h tmo H. destruct (Ht _ _ H) as (? & ? & ?).
    repeat split; [by apply Hsub|done..].
  - intros k Hk. apply Hsub. by apply Hout.
Qed.

Lemma dedup_scheduleDiff s out c :
  dedup s out →
  getChangeKey c ∈ lastSeenChanges s →
  getChangeKey c ∉ out →
  (∀ h tmo, timers s !! h = Some tmo → getChangeKey (change tmo) ≠ getChangeKey c) →
  dedup (scheduleDiff s c) out.
Proof.
  intros (Ht & Hinj & Hout & Hnd) Hseen Hnout Hfree.
  split; [|split; [|split]]; try done.
  - intros h tmo [[-> ->]|H]%scheduleDiff_timers; simpl.
    + repeat split; [done|lia|done].
    + destruct (Ht _ _ H) as (? & ? & ?). repeat split; [done|lia|done].
  - intros h1 h2 t1 t2 [[-> ->]|H1]%scheduleDiff_timers
                       [[-> ->]|H2]%scheduleDiff_timers Hk; simpl in Hk.
    + done.
    + by destruct (Hfree _ _ H2).
    + by destruct (Hfree _ _ H1).
    + by apply (Hinj _ _ _ _ H1 H2).
Qed.

Lemma dedup_fold_scheduleDiff nc s out :
  dedup s out →
  NoDup (getChangeKey <$> nc) →
  (∀ c, c ∈ nc →
     getChangeKey c ∈ lastSeenChanges s ∧ (getChangeKey c ∉ out)
     ∧ ∀ h tmo, timers s !! h = Some tmo →
                getChangeKey (change tmo) ≠ getChangeKey c) →
  dedup (fold_left scheduleDiff nc s) out.
Proof.
  revert s. induction nc as [|c nc IH]; intros s Hd Hnd Hnc; simpl; [done|].
  apply NoDup_cons in Hnd as [Hc Hnd].
  destruct (Hnc c) as (Hs & Ho & Hf); [set_solver|].
  apply IH; [by apply dedup_scheduleDiff|done|].
  intros c' Hc'. destruct (Hnc c') as (Hs' & Ho' & Hf'); [set_solver|].
  repeat split; [done..|].
  intros h tmo [[-> ->]|H]%scheduleDiff_timers; [|by apply (Hf' _ _ H)].
  simpl. intros Heq. apply Hc. rewrite Heq. by apply list_elem_of_fmap_2.
Qed.

Lemma dedup_processChanges cs skip s out :
  dedup s out → dedup (processChanges cs skip s) out.
Proof.
  intros Hd.
  destruct (isEnabled s) eqn:Hen; [|by rewrite processChanges_skipped by auto].
  destruct cs as [|c0 cs0]; [by rewrite processChanges_skipped by auto|].
  destruct skip; [by rewrite processChanges_skipped by auto|].
  destruct (processChanges_unfold (c0 :: cs0) s Hen) as (new & -> & Hnd & Hnew);
    [done|].
  pose proof Hd as (Ht & Hinj & Hout & Hnd').
  apply dedup_fold_scheduleDiff; [apply dedup_withSeen; [done|set_solver]|done|].
  intros c [Hc Hin]%Hnew. split; [|split].
  - cbn [withSeen lastSeenChanges].
    apply elem_of_union_r, elem_of_list_to_set. by apply list_elem_of_fmap_2.
  - intros Ho. by apply Hc, Hout.
  - intros h tmo H Heq. apply Hc. rewrite <- Heq. by destruct (Ht _ _ H).
Qed.

Lemma dedup_setEnabled b s out : dedup s out → dedup (setEnabled b s) out.
Proof.
  intros (Ht & Hinj & Hout & Hnd). destruct b; [done|].
  split; [|split; [|split]]; simpl; try done.
  - intros h tmo H%clearTimeouts_Some. by apply Ht.
  - intros h1 h2 t1 t2 H1%clearTimeouts_Some H2%clearTimeouts_Some.
    by apply Hinj.
Qed.

Lemma dedup_timerFires h s out :
  dedup s out →
  dedup (timerFires h s).1 (out ++ (getChangeKey <$> (timerFires h s).2)).
Proof.
  intros (Ht & Hinj & Hout & Hnd). unfold timerFires.
  destruct (timers s !! h) as [tmo|] eqn:E; simpl;
    [|by rewrite app_nil_r].
  destruct (Ht _ _ E) as (Hs & Hlt & Hno).
  split; [|split; [|split]]; simpl.
  - intros h' tmo' [Hne H]%lookup_delete_Some.
    destruct (Ht _ _ H) as (? & ? & ?). repeat split; [done..|].
    intros [?|Heq%list_elem_of_singleton]%elem_of_app; [done|].
    by apply Hne, (Hinj _ _ _ _ E H).
  - intros h1 h2 t1 t2 [_ H1]%lookup_delete_Some [_ H2]%lookup_delete_Some.
    by apply Hinj.
  - intros k [?| ->%list_elem_of_singleton]%elem_of_app; [by apply Hout|done].
  - apply NoDup_app. split; [done|]. split; [|apply NoDup_singleton].
    intros k Hk ->%list_elem_of_singleton. done.
Qed.

Lemma dedup_step s e out :
  dedup s out → isReset e = false →
  dedup (step s e).1 (out ++ (getChangeKey <$> (step s e).2)).
Proof.
  intros Hd Hr. destruct e; try done; simpl; rewrite ?app_nil_r.
  - by apply dedup_setEnabled.
  - done.
  - by apply dedup_processChanges.
  - by apply dedup_timerFires.
  - unfold showDiffSettles. by case_decide.
Qed.

Lemma dedup_run es s out :
  dedup s out → resetFree es = true → dedup (run s es).1 (out ++ delivered s es).
Proof.
  unfold delivered. revert s out.
  induction es as [|e es IH]; intros s out Hd Hrf; simpl.
  - by rewrite app_nil_r.
  - apply andb_true_iff in Hrf as [He%negb_true_iff Hrf].
    rewrite fmap_app, app_assoc. apply IH; [|done]. by apply dedup_step.
Qed.

Lemma dedup_reset s : registered s → dedup (reset s) [].
Proof.
  intros Hreg. unfold dedup, reset. simpl.
  rewrite (registered_cleared s Hreg).
  split; [|split; [|split]].
  - intros h tmo H. by rewrite lookup_empty in H.
  - intros h1 h2 t1 t2 H. by rewrite lookup_empty in H.
  - intros k Hk. by apply elem_of_nil in Hk.
  - constructor.
Qed.

(** *** A seen key without a timeout is never delivered *)
Lemma settled_processChanges k cs skip s :
  settled k s → settled k (processChanges cs skip s).
Proof.
  intros [Hk Hfree].
  destruct (isEnabled s) eqn:Hen; [|by rewrite processChanges_skipped by auto].
  destruct cs as [|c0 cs0]; [by rewrite processChanges_skipped by auto|].
  destruct skip; [by rewrite processChanges_skipped by auto|].
  destruct (processChanges_unfold (c0 :: cs0) s Hen) as (new & -> & _ & Hnew);
    [done|].
  split.
  - rewrite fold_scheduleDiff_seen. cbn [withSeen lastSeenChanges].
    by apply elem_of_union_l.
  - intros h tmo [Hin|H]%fold_scheduleDiff_timers.
    + apply Hnew in Hin as [Hc _]. intros Heq. apply Hc. by rewrite Heq.
    + by apply (Hfree _ _ H).
Qed.

Lemma settled_step k s e :
  settled k s → isReset e = false →
  settled k (step s e).1 ∧ k ∉ getChangeKey <$> (step s e).2.
Proof.
  intros [Hk Hfree] Hr. destruct e; try done; simpl.
  - split; [|by apply not_elem_of_nil]. destruct enabled; [done|].
    split; [done|]. simpl. intros h tmo H%clearTimeouts_Some.
    by apply (Hfree _ _ H).
  - split; [done|by apply not_elem_of_nil].
  - split; [by apply settled_processChanges|by apply not_elem_of_nil].
  - unfold timerFires. destruct (timers s !! h) as [tmo|] eqn:E; simpl.
    + split.
      * split; [done|]. simpl. intros h' tmo' [_ H]%lookup_delete_Some.
        by apply (Hfree _ _ H).
      * intros Hin%list_elem_of_singleton. by apply (Hfree _ _ E).
    + split; [done|by apply not_elem_of_nil].
  - split; [|by apply not_elem_of_nil].
    unfold showDiffSettles. by case_decide.
Qed.

Lemma settled_run k es s :
  settled k s → resetFree es = true → k ∉ delivered s es.
Proof.
  unfold delivered. revert s. induction es as [|e es IH]; intros s Hs Hrf; simpl.
  - by apply not_elem_of_nil.
  - apply andb_true_iff in Hrf as [He%negb_true_iff Hrf].
    destruct (settled_step k s e Hs He) as [Hs' Hno].
    rewrite fmap_app. intros [?|?]%elem_of_app; [done|].
    by apply (IH _ Hs' Hrf).
Qed.

(** *** The bookkeeping invariant *)

(** Reduce the projections of a state built by a method, and nothing
    else. *)
Ltac fields :=
  cbn [setEnabled reset withSeen timers pendingDiffs lastSeenChanges
       awaiting nextTimer isEnabled delay] in *.

Lemma wf_new : wf new.
Proof.
  split; [|split].
  - intros h tmo H. cbn [new timers] in H. by rewrite lookup_empty in H.
  - intros h tmo H. cbn [new timers] in H. by rewrite lookup_empty in H.
  - intros k Hk. by apply elem_of_nil in Hk.
Qed.

Lemma wf_registered s : wf s → registered s.
Proof. by intros [? _]. Qed.

Lemma wf_setEnabled b s : wf s → wf (setEnabled b s).
Proof.
  intros (Hreg & Ht & Ha). destruct b; [done|].
  split; [|split]; [| |done].
  - intros h tmo H. fields.
    by rewrite (registered_cleared s Hreg), lookup_empty in H.
  - intros h tmo H. fields.
    by rewrite (registered_cleared s Hreg), lookup_empty in H.
Qed.

Lemma wf_reset s : wf s → awaiting s = [] → wf (reset s).
Proof.
  intros (Hreg & Ht & Ha) Hq. split; [|split].
  - intros h tmo H. fields.
    by rewrite (registered_cleared s Hreg), lookup_empty in H.
  - intros h tmo H. fields.
    by rewrite (registered_cleared s Hreg), lookup_empty in H.
  - fields. rewrite Hq. intros k Hk. by apply elem_of_nil in Hk.
Qed.

Lemma wf_withSeen s seen :
  wf s → lastSeenChanges s ⊆ seen → wf (withSeen seen s).
Proof.
  intros (Hreg & Ht & Ha) Hsub. split; [done|]. split; simpl.
  - intros h tmo H. destruct (Ht _ _ H) as (? & ? & ?).
    repeat split; [done|by apply Hsub|done].
  - intros k Hk. by apply Hsub, Ha.
Qed.

Lemma wf_scheduleDiff s c :
  wf s → getChangeKey c ∈ lastSeenChanges s → getChangeKey c ∉ awaiting s →
  wf (scheduleDiff s c).
Proof.
  intros (Hreg & Ht & Ha) Hseen Hna. split; [|split]; [| |done].
  - intros h tmo H. pose proof H as [[-> ->]|Hold]%scheduleDiff_timers.
    + simpl. by rewrite lookup_insert_eq.
    + simpl. simpl in H.
      destruct (decide (getChangeKey (change tmo) = getChangeKey c)) as [Heq|Hne].
      * apply lookup_insert_Some in H as [[<- <-]|[Hne H]];
          [by rewrite lookup_insert_eq|].
        pose proof (Hreg _ _ Hold) as Hp. rewrite Heq in Hp. rewrite Hp in H.
        unfold clearTimeout in H. by rewrite lookup_delete_eq in H.
      * rewrite lookup_insert_ne by done. by apply Hreg.
  - intros h tmo [[-> ->]|Hold]%scheduleDiff_timers; simpl.
    + repeat split; [lia|done..].
    + destruct (Ht _ _ Hold) as (? & ? & ?). repeat split; [lia|done..].
Qed.

Lemma wf_fold_scheduleDiff nc s :
  wf s →
  (∀ c, c ∈ nc → getChangeKey c ∈ lastSeenChanges s ∧ getChangeKey c ∉ awaiting s) →
  wf (fold_left scheduleDiff nc s).
Proof.
  revert s. induction nc as [|c nc IH]; intros s Hwf Hnc; simpl; [done|].
  destruct (Hnc c) as [Hs Ha]; [set_solver|].
  apply IH; [by apply wf_scheduleDiff|].
  intros c' Hc'. apply Hnc. set_solver.
Qed.

Lemma wf_processChanges cs skip s : wf s → wf (processChanges cs skip s).
Proof.
  intros Hwf.
  destruct (isEnabled s) eqn:Hen; [|by rewrite processChanges_skipped by auto].
  destruct cs as [|c0 cs0]; [by rewrite processChanges_skipped by auto|].
  destruct skip; [by rewrite processChanges_skipped by auto|].
  destruct (processChanges_unfold (c0 :: cs0) s Hen) as (new & -> & _ & Hnew);
    [done|].
  pose proof Hwf as (Hreg & Ht & Ha).
  apply wf_fold_scheduleDiff; [apply wf_withSeen; [done|set_solver]|].
  intros c [Hc Hin]%Hnew. split.
  - cbn [withSeen lastSeenChanges].
    apply elem_of_union_r, elem_of_list_to_set. by apply list_elem_of_fmap_2.
  - intros Hin'. by apply Hc, Ha.
Qed.

Lemma wf_timerFires h s : wf s → wf (timerFires h s).1.
Proof.
  intros (Hreg & Ht & Ha). unfold timerFires.
  destruct (timers s !! h) as [tmo|] eqn:E; [|done]. simpl.
  destruct (Ht _ _ E) as (Hlt & Hs & Hna).
  split; [|split]; simpl.
  - intros h' tmo'. simpl. intros [_ H]%lookup_delete_Some. by apply Hreg.
  - intros h' tmo' [Hne H]%lookup_delete_Some.
    destruct (Ht _ _ H) as (? & ? & ?). repeat split; [done..|].
    intros [?|Heq%list_elem_of_singleton]%elem_of_app; [done|].
    apply Hne. pose proof (Hreg _ _ H) as Hp. pose proof (Hreg _ _ E) as Hp'.
    rewrite Heq in Hp. congruence.
  - intros k [?| ->%list_elem_of_singleton]%elem_of_app; [by apply Ha|done].
Qed.

Lemma elem_of_removeFirst k x l : x ∈ removeFirst k l → x ∈ l.
Proof.
  induction l as [|y l IH]; simpl; [done|].
  case_decide; [set_solver|]. intros [->|?]%elem_of_cons; set_solver.
Qed.

Lemma wf_showDiffSettles k s : wf s → wf (showDiffSettles k s).
Proof.
  intros (Hreg & Ht & Ha). unfold showDiffSettles. case_decide as Hk; [|done].
  split; [|split]; simpl.
  - intros h tmo H. simpl in *. destruct (Ht _ _ H) as (? & ? & Hna).
    rewrite lookup_delete_ne; [by apply Hreg|]. by intros ->.
  - intros h tmo H. destruct (Ht _ _ H) as (? & ? & Hna).
    repeat split; [done..|]. intros Hin%elem_of_removeFirst. done.
  - intros x Hx%elem_of_removeFirst. by apply Ha.
Qed.

Lemma wf_step s e :
  wf s → (isReset e = true → awaiting s = []) → wf (step s e).1.
Proof.
  intros Hwf Hq. destruct e; simpl.
  - by apply wf_setEnabled.
  - done.
  - by apply wf_processChanges.
  - apply wf_reset; [done|by apply Hq].
  - apply wf_reset; [done|by apply Hq].
  - by apply wf_timerFires.
  - by apply wf_showDiffSettles.
Qed.

Lemma wf_run es s : wf s → quietResets s es → wf (run s es).1.
Proof.
  revert s. induction es as [|e es IH]; intros s Hwf Hq; simpl; [done|].
  destruct Hq as [Hq Hqs]. apply IH; [by apply wf_step|done].
Qed.

(** Every state a fresh tracker reaches, with resets only between
    callbacks, has its armed timeouts registered. *)
Lemma reachable_registered es :
  quietResets new es → registered (run new es).1.
Proof. intros Hq. by apply wf_registered, wf_run; [apply wf_new|]. Qed.

Lemma fold_scheduleDiff_isEnabled nc s :
  isEnabled (fold_left scheduleDiff nc s) = isEnabled s.
Proof. revert s. induction nc as [|c nc IH]; intros s; simpl; [done|]. by rewrite IH. Qed.

Lemma processChanges_seen cs s :
  isEnabled s = true →
  lastSeenChanges (processChanges cs false s)
  = lastSeenChanges s ∪ list_to_set (getChangeKey <$> cs).
Proof.
  intros Hen. destruct cs as [|c0 cs0].
  - rewrite processChanges_skipped by auto. set_solver.
  - destruct (processChanges_unfold (c0 :: cs0) s Hen) as (new & -> & _); [done|].
    by rewrite fold_scheduleDiff_seen.
Qed.

(** Records whose keys are all seen leave the tracker as it is. *)
Lemma processChanges_all_seen cs skip s :
  (∀ c, c ∈ cs → getChangeKey c ∈ lastSeenChanges s) →
  processChanges cs skip s = s.
Proof.
  intros Hall.
  destruct (isEnabled s) eqn:Hen; [|by rewrite processChanges_skipped by auto].
  destruct cs as [|c0 cs0]; [by rewrite processChanges_skipped by auto|].
  destruct skip; [by rewrite processChanges_skipped by auto|].
  destruct (processChanges_unfold (c0 :: cs0) s Hen) as (new & -> & _ & Hnew);
    [done|].
  destruct new as [|c new].
  - cbn [fold_left].
    assert (lastSeenChanges s ∪ list_to_set (getChangeKey <$> c0 :: cs0)
            = lastSeenChanges s) as ->; [|apply withSeen_id].
    apply set_eq. intros k. rewrite elem_of_union, elem_of_list_to_set.
    split; [|by left]. intros [?|(c & -> & Hc)%list_elem_of_fmap]; [done|].
    by apply Hall.
  - destruct (Hnew c) as [Hc Hin]; [set_solver|]. by destruct Hc; apply Hall.
Qed.

(** The claim about suppression fails: on an enabled tracker a suppressed
    call leaves the seen-set empty, and the later call with the same
    record arms a timeout for it. *)
Example suppressed_records_stay_unseen :
  let s := setEnabled true new in
  let c := sampleChange "s1" "u1" "/w/a.ts" in
  lastSeenChanges (processChanges [c] true s) = ∅
  ∧ timers (processChanges [c] false (processChanges [c] true s))
    = {[ 0%nat := mkTimeout c 1000 ]}
  ∧ pendingDiffs (processChanges [c] false (processChanges [c] true s))
    = {[ getChangeKey c := 0%nat ]}.
Proof. repeat split; vm_compute; reflexivity. Qed.

(** C1, amended.  On an enabled tracker a call of [processChanges]
    without suppression adds the key of every input record to the
    seen-set at once, so a later call with the same records, suppressed
    or not, changes nothing and schedules nothing; a call with
    suppression ([skipOnStartup]) returns before the seen-set or the
    pending deliveries are touched, and leaves the tracker as it was. *)
Theorem processChanges_marks_seen_unless_suppressed
    (cs : list FileChange.t) (s : t) :
  isEnabled s = true →
  lastSeenChanges (processChanges cs false s)
    = lastSeenChanges s ∪ list_to_set (getChangeKey <$> cs)
  ∧ (∀ skip, processChanges cs skip (processChanges cs false s)
             = processChanges cs false s)
  ∧ processChanges cs true s = s.
Proof.
  intros Hen. split; [by apply processChanges_seen|]. split.
  - intros skip. apply processChanges_all_seen. intros c Hc.
    rewrite processChanges_seen by done.
    apply elem_of_union_r, elem_of_list_to_set. by apply list_elem_of_fmap_2.
  - apply processChanges_skipped. auto.
Qed.

Lemma processChanges_marks_seen_unless_suppressed_witness :
  let s := setEnabled true new in
  let cs := [sampleChange "s1" "u1" "/w/a.ts"; sampleChange "s1" "u2" "/w/b.ts"] in
  isEnabled s = true
  ∧ lastSeenChanges (processChanges cs false s)
    = lastSeenChanges s ∪ list_to_set (getChangeKey <$> cs)
  ∧ (∀ skip, processChanges cs skip (processChanges cs false s)
             = processChanges cs false s)
  ∧ processChanges cs true s = s.
Proof.
  split; [reflexivity|].
  apply processChanges_marks_seen_unless_suppressed. reflexivity.
Defined.

Lemma dedup_new : dedup new [].
Proof.
  split; [|split; [|split]].
  - intros h tmo H. cbn [new timers] in H. by rewrite lookup_empty in H.
  - intros h1 h2 t1 t2 H. cbn [new timers] in H. by rewrite lookup_empty in H.
  - intros k Hk. by apply elem_of_nil in Hk.
  - constructor.
Qed.

(** C3.  The claim fails on a tracker that was reset while a callback
    awaited [showDiff].  A record [a] is processed and its timeout fires;
    before [showDiff] settles, [reset()] is called and [a] is processed
    again, which arms timeout 1; then [showDiff] settles and the [finally]
    block of the first callback deletes the pending entry of the key, the
    one that now holds timeout 1.  Timeout 1 is armed but no longer held
    in the pending map, so the next [reset()] does not disarm it.  After
    that reset, [a] is processed again (timeout 2), and both timeouts
    fire: the key of [a] is handed to [showDiff] twice with no reset
    between. *)
Example delivered_twice_after_reset_during_showDiff :
  let a := sampleChange "s1" "u1" "/w/a.ts" in
  let k := getChangeKey a in
  let history := [SetEnabled true; ProcessChanges [a] false; TimerFires 0; Reset;
                  ProcessChanges [a] false; ShowDiffSettles k] in
  let s := (run new history).1 in
  let es := [ProcessChanges [a] false; ProcessChanges [a] false;
             TimerFires 1; TimerFires 2] in
  resetFree es = true
  ∧ pendingDiffs s = ∅
  ∧ timers s !! 1%nat = Some (mkTimeout a 1000)
  ∧ timers (reset s) !! 1%nat = Some (mkTimeout a 1000)
  ∧ delivered (reset s) es = [k; k]
  ∧ delivered new (history ++ Reset :: es) = [k; k; k].
Proof. repeat split; vm_compute; reflexivity. Qed.

(** C7.  The claim fails on the same tracker.  After the history above
    the key of [a] is seen, the pending map is empty and timeout 1 is armed
    for [a].  [setEnabled(false)] finds nothing in the pending map and
    leaves timeout 1 armed: when it fires, [a] is handed to [showDiff] on
    the disabled tracker, and also after enabling again and processing the
    same record, although its key was seen before the disable. *)
Example armed_timeout_survives_disable :
  let a := sampleChange "s1" "u1" "/w/a.ts" in
  let k := getChangeKey a in
  let s := (run new [SetEnabled true; ProcessChanges [a] false; TimerFires 0; Reset;
                     ProcessChanges [a] false; ShowDiffSettles k]).1 in
  let s1 := setEnabled false s in
  k ∈ lastSeenChanges s
  ∧ pendingDiffs s = ∅
  ∧ timers s !! 1%nat = Some (mkTimeout a 1000)
  ∧ isEnabled s1 = false
  ∧ timers s1 !! 1%nat = Some (mkTimeout a 1000)
  ∧ lastSeenChanges s1 = lastSeenChanges s
  ∧ delivered s1 [TimerFires 1] = [k]
  ∧ delivered s1 [SetEnabled true; ProcessChanges [a] false; TimerFires 1] = [k].
Proof.
  split; [apply (bool_decide_unpack _); vm_compute; exact I|].
  repeat split; vm_compute; reflexivity.
Qed.

(** X23.  Through any sequence of method calls and timeout events without
    a reset ([processChanges] with any records, as often as wanted, with
    the same records again or not), no change key is handed to [showDiff]
    twice: from a new tracker, and from a reset of a tracker whose armed
    timeouts are all held in the pending map, as they are in every state
    a new tracker reaches when [reset()] and [dispose()] are called only
    while no callback awaits [showDiff]. *)
Theorem delivered_at_most_once_between_resets (s : t) (es0 es : list event) :
  resetFree es = true →
  NoDup (delivered new es)
  ∧ (registered s → NoDup (delivered (reset s) es))
  ∧ (quietResets new es0 → NoDup (delivered (reset (run new es0).1) es)).
Proof.
  intros Hrf.
  assert (Hfrom : ∀ s0, registered s0 → NoDup (delivered (reset s0) es)).
  { intros s0 Hreg.
    by destruct (dedup_run es (reset s0) [] (dedup_reset s0 Hreg) Hrf)
      as (_ & _ & _ & Hnd). }
  split; [|split].
  - by destruct (dedup_run es new [] dedup_new Hrf) as (_ & _ & _ & Hnd).
  - apply Hfrom.
  - intros Hq. by apply Hfrom, reachable_registered.
Qed.

Lemma delivered_at_most_once_between_resets_witness :
  let a := sampleChange "s1" "u1" "/w/a.ts" in
  let b := sampleChange "s1" "u2" "/w/b.ts" in
  let es0 := [SetEnabled true; ProcessChanges [a; b] false; TimerFires 0] in
  let es := [ProcessChanges [a; b; a] false; ProcessChanges [a; b] false;
             TimerFires 2; ProcessChanges [a; b] false; TimerFires 3;
             ShowDiffSettles (getChangeKey a); ProcessChanges [b; a] false] in
  quietResets new es0 ∧ resetFree es = true
  ∧ delivered (reset (run new es0).1) es = [getChangeKey a; getChangeKey b]
  ∧ NoDup (delivered (reset (run new es0).1) es).
Proof.
  assert (Hq : quietResets new
    [SetEnabled true;
     ProcessChanges [sampleChange "s1" "u1" "/w/a.ts";
                     sampleChange "s1" "u2" "/w/b.ts"] false;
     TimerFires 0]).
  { simpl. repeat split; discriminate. }
  split; [exact Hq|]. split; [reflexivity|]. split; [vm_compute; reflexivity|].
  refine (proj2 (proj2 (delivered_at_most_once_between_resets new _ _ _)) Hq).
  reflexivity.
Defined.

(** X24.  Disabling a tracker disarms every timeout the pending map
    holds, hands nothing to [showDiff], empties the pending map and does
    not change the seen-set, and after enabling again, processing records
    whose keys were all seen before changes nothing.  When the armed
    timeouts are all held in the pending map, as they are in every state a
    new tracker reaches when [reset()] and [dispose()] are called only
    while no callback awaits [showDiff], disabling leaves no timeout armed;
    then for a key seen before, enabling again and processing any records
    (the same ones included), followed by any events short of a reset,
    never hands that key to [showDiff]. *)
Theorem disable_cancels_pending_and_keeps_seen (s : t) (es0 : list event) :
  let s1 := setEnabled false s in
  ((∀ k h, pendingDiffs s !! k = Some h → timers s1 !! h = None)
   ∧ pendingDiffs s1 = ∅
   ∧ (step s (SetEnabled false)).2 = []
   ∧ lastSeenChanges s1 = lastSeenChanges s
   ∧ ∀ cs skip, (∀ c, c ∈ cs → getChangeKey c ∈ lastSeenChanges s) →
       processChanges cs skip (setEnabled true s1) = setEnabled true s1)
  ∧ (registered s →
     timers s1 = ∅
     ∧ ∀ k cs skip es,
         k ∈ lastSeenChanges s → resetFree es = true →
         k ∉ delivered (setEnabled true s1) (ProcessChanges cs skip :: es))
  ∧ (quietResets new es0 → registered (run new es0).1).
Proof.
  intros s1. split; [|split; [|apply reachable_registered]].
  - split; [|split; [|split; [|split]]]; try done.
    + intros k h Hk. by apply (clearTimeouts_cancels _ _ k).
    + intros cs skip Hall. by apply processChanges_all_seen.
  - intros Hreg. split; [by apply registered_cleared|].
    intros k cs skip es Hk Hrf. apply settled_run; [|done].
    split; [done|]. intros h tmo H. exfalso. revert H.
    cbn [setEnabled timers s1]. rewrite (registered_cleared s Hreg).
    by rewrite lookup_empty.
Qed.

Lemma disable_cancels_pending_and_keeps_seen_witness :
  let a := sampleChange "s1" "u1" "/w/a.ts" in
  let b := sampleChange "s1" "u2" "/w/b.ts" in
  let es0 := [SetEnabled true; ProcessChanges [a; b] false] in
  let s := (run new es0).1 in
  let s1 := setEnabled false s in
  quietResets new es0
  ∧ timers s = {[ 0%nat := mkTimeout a 1000; 1%nat := mkTimeout b 1000 ]}
  ∧ timers s1 = ∅
  ∧ pendingDiffs s1 = ∅
  ∧ lastSeenChanges s1 = lastSeenChanges s
  ∧ ∀ k cs skip es,
      k ∈ lastSeenChanges s → resetFree es = true →
      k ∉ delivered (setEnabled true s1) (ProcessChanges cs skip :: es).
Proof.
  assert (Hq : quietResets new
    [SetEnabled true;
     ProcessChanges [sampleChange "s1" "u1" "/w/a.ts";
                     sampleChange "s1" "u2" "/w/b.ts"] false]).
  { simpl. repeat split; discriminate. }
  split; [exact Hq|]. split; [vm_compute; reflexivity|].
  destruct (disable_cancels_pending_and_keeps_seen
              (run new [SetEnabled true;
                        ProcessChanges [sampleChange "s1" "u1" "/w/a.ts";
                                        sampleChange "s1" "u2" "/w/b.ts"] false]).1
              [SetEnabled true;
               ProcessChanges [sampleChange "s1" "u1" "/w/a.ts";
                               sampleChange "s1" "u2" "/w/b.ts"] false])
    as ((_ & Hp & _ & Hseen & _) & Hcond & Hreach).
  destruct (Hcond (Hreach Hq)) as [Ht Hnever].
  split; [exact Ht|]. split; [exact Hp|]. split; [exact Hseen|]. exact Hnever.
Defined.

End LiveDiffTrackerFacts.

(** ** The heuristic tracker *)
Module HeuristicTrackerFacts.
Import HeuristicTracker TimeoutFacts.

(** What a record stored by [showHeuristicDiff] looks like. *)
Lemma heuristicChange_shape clock fileName before after :
  let r := heuristicChange clock fileName before after in
  FileChange.isHeuristic r = Some true
  ∧ FileChange.toolName r = Heuristic
  ∧ FileChange.oldContent r = Some before
  ∧ FileChange.newContent r = Some after.
Proof. done. Qed.

Section Host.
Variable shouldExcludeFile : string -> bool.
Variable pathRelative : string -> string -> string.
Variable pathSep : ascii.

Local Abbreviation step := (HeuristicTracker.step shouldExcludeFile pathRelative pathSep).

(** The records a step stores: none, or the one record of
    [showHeuristicDiff], whose before-content is empty except in the
    callback of a save, where it is the content captured when the save
    began. *)
Lemma step_records s e :
  heuristicChanges (step s e) = heuristicChanges s
  ∨ ∃ clock fileName before after,
      heuristicChanges (step s e)
      = heuristicChanges s ++ [heuristicChange clock fileName before after]
      ∧ (before = EmptyString
         ∨ ∃ h result doc,
             e = DocumentOpened h result clock
             ∧ opening s !! h = Some (SaveTask doc before)
             ∧ fileName = HeuristicTracker.fileName doc).
Proof.
  destruct e; simpl.
  - left. unfold setEnabled. by destruct enabled.
  - by left.
  - by left.
  - left. unfold onDidCreate. by repeat case_match.
  - left. unfold onDidChange. by repeat case_match.
  - left. unfold onWillSaveTextDocument. by repeat case_match.
  - left. unfold onDidOpenTextDocument. by repeat case_match.
  - left. unfold onDidCloseTextDocument. by repeat case_match.
  - unfold timerFires. destruct (timers s !! h) as [[task d]|]; [|by left].
    destruct task as [u|u|doc orig|doc c]; try by left.
    right. exists clock, (fileName doc), EmptyString, c. by split; [|left].
  - unfold documentOpened. destruct (opening s !! h) as [task|] eqn:E; [|by left].
    destruct task as [u|u|doc orig|doc c].
    + destruct result as [d|]; [|by left]. case_match; [|by left].
      right. exists clock, (fsPath u), EmptyString, (getText d). by split; [|left].
    + destruct result as [d|]; [|by left]. case_match; [|by left].
      right. exists clock, (fsPath u), EmptyString, (getText d). by split; [|left].
    + destruct result as [d|]; [|by left]. case_match; [|by left].
      right. exists clock, (fileName doc), orig, (getText d).
      split; [done|]. right. by exists h, (Some d), doc.
    + by left.
  - by left.
  - by left.
Qed.

(** The callback armed by [onWillSaveTextDocument] closes over the
    snapshot stored for the document at that moment, or over the empty
    string when there is none. *)
Lemma onWillSave_arms doc s h task d :
  timers (onWillSaveTextDocument shouldExcludeFile doc s) !! h = Some (task, d) →
  timers s !! h = Some (task, d)
  ∨ task = SaveTask doc (default EmptyString (fileSnapshots s !! uriString (uri doc))).
Proof.
  unfold onWillSaveTextDocument.
  destruct (negb (isEnabled s)); [by left|].
  destruct (negb (String.eqb _ _)); [by left|].
  destruct (shouldExcludeFile _); [by left|].
  cbn [withPending setTimeout timers fst snd].
  intros [[<- [= <- <-]]|[_ H]]%lookup_insert_Some.
  - right. f_equal. destruct (fileSnapshots s !! _) as [c|]; [|done].
    simpl. by destruct c.
  - left. destruct (pendingChanges s !! _); [|done].
    cbn [withTimers timers] in H. unfold clearTimeout in H.
    by apply lookup_delete_Some in H as [_ H].
Qed.

Lemma timerFires_opening h clock s task d :
  timers s !! h = Some (task, d) →
  (∀ doc c, task ≠ UntitledTask doc c) →
  timerFires h clock s
  = withOpening (<[h := task]> (opening s)) (withTimers (delete h (timers s)) s).
Proof.
  intros H Hno. unfold timerFires. rewrite H.
  destruct task as [u|u|doc orig|doc c]; try done. by destruct (Hno doc c).
Qed.

Lemma onWillSave_armed doc s :
  isEnabled s = true → scheme (uri doc) = "file" →
  shouldExcludeFile (fileName doc) = false →
  onWillSaveTextDocument shouldExcludeFile doc s
  = let u := uriString (uri doc) in
    let s1 := match pendingChanges s !! u with
              | Some old => withTimers (clearTimeout old (timers s)) s
              | None => s
              end in
    let r := setTimeout
               (SaveTask doc (default EmptyString (fileSnapshots s !! u))) s1 in
    withPending (<[u := r.2]> (pendingChanges r.1)) r.1.
Proof.
  intros Hen Hs Hex. unfold onWillSaveTextDocument. rewrite Hen, Hs, Hex.
  cbn [negb String.eqb Ascii.eqb Bool.eqb]. cbv zeta.
  assert (match fileSnapshots s !! uriString (uri doc) with
          | Some c => if Js.truthy c then c else EmptyString
          | None => EmptyString
          end = default EmptyString (fileSnapshots s !! uriString (uri doc))) as ->;
    [|done].
  destruct (fileSnapshots s !! _) as [c|]; [|done]. by destruct c.
Qed.

Lemma onWillSave_fields doc s :
  isEnabled s = true → scheme (uri doc) = "file" →
  shouldExcludeFile (fileName doc) = false →
  let s' := onWillSaveTextDocument shouldExcludeFile doc s in
  timers s' !! nextTimer s
  = Some (SaveTask doc (default EmptyString (fileSnapshots s !! uriString (uri doc))),
          delay s)
  ∧ pendingChanges s' !! uriString (uri doc) = Some (nextTimer s)
  ∧ nextTimer s' = S (nextTimer s)
  ∧ fileSnapshots s' = fileSnapshots s
  ∧ heuristicChanges s' = heuristicChanges s
  ∧ isEnabled s' = true
  ∧ delay s' = delay s
  ∧ (∀ old, pendingChanges s !! uriString (uri doc) = Some old →
            old ≠ nextTimer s → timers s' !! old = None).
Proof.
  intros Hen Hs Hex s'. subst s'. rewrite onWillSave_armed by done. cbv zeta.
  destruct (pendingChanges s !! uriString (uri doc)) as [old|];
    cbn [setTimeout withPending withTimers fst snd timers pendingChanges nextTimer
         fileSnapshots heuristicChanges isEnabled delay];
    rewrite !lookup_insert_eq; repeat split; try done.
  intros old' [= <-] Hne. rewrite lookup_insert_ne by done.
  unfold clearTimeout. by rewrite lookup_delete_eq.
Qed.

(** C2, amended.  Every record the tracker stores is a Heuristic record
    with [isHeuristic] true, and a step stores at most one.  Its
    [oldContent] is the empty string on the creation, the
    untracked-modification and the untitled-document paths.  On the
    editor-observed save path it is the content captured when the save
    began and nothing else: the callback of a save that reads a content
    different from the captured one stores the record from the captured
    content to the content read; and from [onWillSaveTextDocument] to the
    stored record, the captured content is the snapshot stored for the
    document when the save began (the empty string only when there was
    none, or an empty one). *)
Theorem heuristic_records_shape (s : t) (e : event) (doc saved : TextDocument)
    (h : nat) (before : string) (task : Task) (d : Z) (c1 c2 : Clock) :
  (heuristicChanges (step s e) = heuristicChanges s
   ∨ ∃ r, heuristicChanges (step s e) = heuristicChanges s ++ [r]
      ∧ FileChange.isHeuristic r = Some true
      ∧ FileChange.toolName r = Heuristic
      ∧ FileChange.oldContent r
        = Some match e with
               | DocumentOpened h' _ _ =>
                   match opening s !! h' with
                   | Some (SaveTask _ captured) => captured
                   | _ => EmptyString
                   end
               | _ => EmptyString
               end)
  ∧ (opening s !! h = Some (SaveTask doc before) →
     getText saved ≠ before →
     heuristicChanges (step s (DocumentOpened h (Some saved) c2))
     = heuristicChanges s ++ [heuristicChange c2 (fileName doc) before (getText saved)])
  ∧ (isEnabled s = true →
     scheme (uri doc) = "file" →
     shouldExcludeFile (fileName doc) = false →
     getText saved ≠ default EmptyString (fileSnapshots s !! uriString (uri doc)) →
     heuristicChanges
       (HeuristicTracker.run shouldExcludeFile pathRelative pathSep s
          [WillSave doc; TimerFires (nextTimer s) c1;
           DocumentOpened (nextTimer s) (Some saved) c2])
     = heuristicChanges s
       ++ [heuristicChange c2 (fileName doc)
             (default EmptyString (fileSnapshots s !! uriString (uri doc)))
             (getText saved)])
  ∧ (timers (onWillSaveTextDocument shouldExcludeFile doc s) !! h = Some (task, d) →
     timers s !! h = Some (task, d)
     ∨ task = SaveTask doc
                (default EmptyString (fileSnapshots s !! uriString (uri doc)))).
Proof.
  assert (Hsave : ∀ s0 h0 before0,
            opening s0 !! h0 = Some (SaveTask doc before0) →
            getText saved ≠ before0 →
            heuristicChanges (step s0 (DocumentOpened h0 (Some saved) c2))
            = heuristicChanges s0
              ++ [heuristicChange c2 (fileName doc) before0 (getText saved)]).
  { intros s0 h0 before0 Ho Hne. cbn [HeuristicTracker.step]. unfold documentOpened.
    rewrite Ho.
    assert (String.eqb before0 (getText saved) = false) as ->
      by (apply String.eqb_neq; congruence).
    reflexivity. }
  split; [|split; [by apply Hsave|split; [|apply onWillSave_arms]]].
  - destruct e; cbn [HeuristicTracker.step].
    + left. unfold setEnabled. by destruct enabled.
    + by left.
    + by left.
    + left. unfold onDidCreate. by repeat case_match.
    + left. unfold onDidChange. by repeat case_match.
    + left. unfold onWillSaveTextDocument. by repeat case_match.
    + left. unfold onDidOpenTextDocument. by repeat case_match.
    + left. unfold onDidCloseTextDocument. by repeat case_match.
    + unfold timerFires. destruct (timers s !! h0) as [[task0 d0]|]; [|by left].
      destruct task0 as [u|u|doc0 orig|doc0 c]; try by left.
      right. by eexists.
    + unfold documentOpened. destruct (opening s !! h0) as [task0|] eqn:E; [|by left].
      destruct task0 as [u|u|doc0 orig|doc0 c].
      * destruct result as [r|]; [|by left]. case_match; [|by left].
        right. by eexists.
      * destruct result as [r|]; [|by left]. case_match; [|by left].
        right. by eexists.
      * destruct result as [r|]; [|by left]. case_match; [|by left].
        right. by eexists.
      * by left.
    + by left.
    + by left.
  - intros Hen Hs Hex Hne.
    destruct (onWillSave_fields doc s Hen Hs Hex) as (Ht & _ & _ & _ & Hrec & _).
    cbn [HeuristicTracker.run fold_left HeuristicTracker.step].
    set (s1 := onWillSaveTextDocument shouldExcludeFile doc s) in *.
    rewrite (timerFires_opening _ _ _ _ _ Ht) by done.
    set (s2 := withOpening _ _).
    assert (Ho : opening s2 !! nextTimer s
                 = Some (SaveTask doc
                           (default EmptyString (fileSnapshots s !! uriString (uri doc)))))
      by (subst s2; cbn [withOpening opening]; by rewrite lookup_insert_eq).
    change (documentOpened (nextTimer s) (Some saved) c2 s2)
      with (step s2 (DocumentOpened (nextTimer s) (Some saved) c2)).
    rewrite (Hsave s2 _ _ Ho Hne). subst s2.
    cbn [withOpening withTimers heuristicChanges]. by rewrite Hrec.
Qed.

(** C6.  No record is stored, and no snapshot, in each of these cases:
    a change notification for a path without a snapshot whose depth
    below the workspace root exceeds 3 (nothing at all happens then, no
    timeout is armed); the content read after the delay by the callback of
    a change notification is empty or has at least 10,000 characters; the
    content read by the callback of a save equals the content captured
    when the save began.  The callback of a creation notification stores
    nothing for empty content either (it applies no ceiling). *)
Theorem no_record_when_deep_oversized_or_unchanged
    (s : t) (u : Uri) (root : string) (h : nat) (clock : Clock)
    (read doc saved : TextDocument) (before : string) :
  (fileSnapshots s !! uriString u = None →
   (3 < pathDepth pathRelative pathSep root u)%nat →
   step s (DidChange u (Some root)) = s)
  ∧ (opening s !! h = Some (ChangedTask u) →
     String.length (getText read) = 0%nat
     ∨ (10000 ≤ N.of_nat (String.length (getText read)))%N →
     heuristicChanges (step s (DocumentOpened h (Some read) clock))
       = heuristicChanges s
     ∧ fileSnapshots (step s (DocumentOpened h (Some read) clock))
       = fileSnapshots s)
  ∧ (opening s !! h = Some (SaveTask doc before) →
     getText saved = before →
     heuristicChanges (step s (DocumentOpened h (Some saved) clock))
       = heuristicChanges s
     ∧ fileSnapshots (step s (DocumentOpened h (Some saved) clock))
       = fileSnapshots s).
Proof.
  split; [|split]; simpl.
  - intros Hsnap Hdeep. unfold onDidChange. rewrite Hsnap.
    destruct (negb (isEnabled s)); [done|].
    destruct (shouldExcludeFile _); [done|].
    apply Nat.ltb_lt in Hdeep. by rewrite Hdeep.
  - intros Ho Hlen. unfold documentOpened. rewrite Ho.
    assert ((0 <? String.length (getText read))%nat
            && (N.of_nat (String.length (getText read)) <? 10000)%N = false) as ->;
      [|done].
    destruct Hlen as [->|Hbig]; [done|].
    apply andb_false_iff. right. by apply N.ltb_ge.
  - intros Ho <-. unfold documentOpened. rewrite Ho.
    by rewrite String.eqb_refl.
Qed.


End Host.

(** *** A save, step by step *)

(** The claim that every heuristic record has an empty [oldContent]
    fails on the save path: a document snapshotted with one text and saved
    with another leaves a record whose [oldContent] is the first text. *)
Example save_record_keeps_old_content :
  let doc := fileDoc "/w/a.ts" "old text" in
  let saved := fileDoc "/w/a.ts" "new text" in
  let s := run noExclusions relativeBelow "/" new
             [SetEnabled true [doc] true; WillSave saved; TimerFires 0 noon;
              DocumentOpened 0 (Some saved) noon] in
  getHeuristicChanges s = [heuristicChange noon "/w/a.ts" "old text" "new text"]
  ∧ FileChange.oldContent <$> getHeuristicChanges s = [Some "old text"]
  ∧ FileChange.isHeuristic <$> getHeuristicChanges s = [Some true].
Proof. repeat split; vm_compute; reflexivity. Qed.

Lemma heuristic_records_shape_witness :
  let doc := fileDoc "/w/a.ts" "old text" in
  let saved := fileDoc "/w/a.ts" "new text" in
  let s0 := setEnabled noExclusions true [doc] true new in
  let s := run noExclusions relativeBelow "/" s0 [WillSave saved; TimerFires 0 noon] in
  (opening s !! 0%nat = Some (SaveTask saved "old text")
   ∧ heuristicChanges (step noExclusions relativeBelow "/" s
                         (DocumentOpened 0 (Some saved) noon))
     = heuristicChanges s ++ [heuristicChange noon "/w/a.ts" "old text" "new text"])
  ∧ (fileSnapshots s0 !! "file:///w/a.ts" = Some "old text"
     ∧ heuristicChanges
         (run noExclusions relativeBelow "/" s0
            [WillSave saved; TimerFires 0 noon; DocumentOpened 0 (Some saved) noon])
       = heuristicChanges s0 ++ [heuristicChange noon "/w/a.ts" "old text" "new text"]).
Proof.
  assert (Hne : getText (fileDoc "/w/a.ts" "new text") ≠ "old text")
    by (intros H; vm_compute in H; discriminate H).
  split; (split; [vm_compute; reflexivity|]).
  - refine (proj1 (proj2 (heuristic_records_shape noExclusions relativeBelow "/"
              (run noExclusions relativeBelow "/"
                 (setEnabled noExclusions true [fileDoc "/w/a.ts" "old text"] true new)
                 [WillSave (fileDoc "/w/a.ts" "new text"); TimerFires 0 noon])
              Reset (fileDoc "/w/a.ts" "new text") (fileDoc "/w/a.ts" "new text")
              0 "old text" (CreatedTask (fileUri "/w/a.ts")) 0 noon noon)) _ Hne).
    vm_compute; reflexivity.
  - refine (proj1 (proj2 (proj2 (heuristic_records_shape noExclusions relativeBelow "/"
              (setEnabled noExclusions true [fileDoc "/w/a.ts" "old text"] true new)
              Reset (fileDoc "/w/a.ts" "new text") (fileDoc "/w/a.ts" "new text")
              0 "old text" (CreatedTask (fileUri "/w/a.ts")) 0 noon noon)))
              eq_refl eq_refl eq_refl _).
    intros H; vm_compute in H; discriminate H.
Defined.

Lemma no_record_when_deep_oversized_or_unchanged_witness :
  let s0 := run noExclusions relativeBelow "/" new
              [SetEnabled true [fileDoc "/w/a.ts" "old text"] true] in
  let deep := fileUri "/w/lib/x/y/z.ts" in
  let s1 := run noExclusions relativeBelow "/" s0
              [DidChange (fileUri "/w/notes.md") (Some "/w"); TimerFires 0 noon] in
  let s2 := run noExclusions relativeBelow "/" s0
              [WillSave (fileDoc "/w/a.ts" "edited"); TimerFires 0 noon] in
  (pathDepth relativeBelow "/" "/w" deep = 4%nat
   ∧ step noExclusions relativeBelow "/" s0 (DidChange deep (Some "/w")) = s0)
  ∧ (opening s1 !! 0%nat = Some (ChangedTask (fileUri "/w/notes.md"))
     ∧ heuristicChanges
         (step noExclusions relativeBelow "/" s1
            (DocumentOpened 0 (Some (fileDoc "/w/notes.md" "")) noon))
       = heuristicChanges s1)
  ∧ (opening s2 !! 0%nat = Some (SaveTask (fileDoc "/w/a.ts" "edited") "old text")
     ∧ heuristicChanges
         (step noExclusions relativeBelow "/" s2
            (DocumentOpened 0 (Some (fileDoc "/w/a.ts" "old text")) noon))
       = heuristicChanges s2).
Proof.
  split; [|split].
  - split; [vm_compute; reflexivity|].
    refine (proj1 (no_record_when_deep_oversized_or_unchanged
              noExclusions relativeBelow "/" _ (fileUri "/w/lib/x/y/z.ts") "/w"
              0 noon (fileDoc "" "") (fileDoc "" "") (fileDoc "" "") "") _ _).
    + vm_compute; reflexivity.
    + vm_compute; lia.
  - split; [vm_compute; reflexivity|].
    refine (proj1 (proj1 (proj2 (no_record_when_deep_oversized_or_unchanged
              noExclusions relativeBelow "/" _ (fileUri "/w/notes.md") "/w"
              0 noon (fileDoc "/w/notes.md" "") (fileDoc "" "") (fileDoc "" "") ""))
              _ _)).
    + vm_compute; reflexivity.
    + left. reflexivity.
  - split; [vm_compute; reflexivity|].
    refine (proj1 (proj2 (proj2 (no_record_when_deep_oversized_or_unchanged
              noExclusions relativeBelow "/" _ (fileUri "/w/a.ts") "/w"
              0 noon (fileDoc "" "") (fileDoc "/w/a.ts" "edited")
              (fileDoc "/w/a.ts" "old text") "old text")) _ _)).
    + vm_compute; reflexivity.
    + reflexivity.
Defined.


End HeuristicTrackerFacts.

(** ** Workspace names, log reading and session summaries *)
Module SessionLogFacts.
Import Js SessionParser SessionLog.

Lemma replaceChar_length c r s : String.length (replaceChar c r s) = String.length s.
Proof. induction s as [|d s IH]; simpl; [done|]. by rewrite IH. Qed.

(** What encoding, and encoding followed by decoding, do to one code
    unit. *)
Lemma encode_cons d s :
  encodeWorkspacePath (String d s)
  = String (if isSeparatorOrColon d then "-"%char else d) (encodeWorkspacePath s).
Proof.
  unfold encodeWorkspacePath, isSeparatorOrColon. cbn [replaceChar]. f_equal.
  destruct (Ascii.eqb_spec d backslash) as [->|Hb]; [done|].
  destruct (Ascii.eqb_spec d "/") as [->|Hs]; [done|].
  simpl. by destruct (Ascii.eqb_spec d ":").
Qed.

Lemma decode_cons d s :
  decodeWorkspaceName (String d s)
  = String (if Ascii.eqb d "-" then "/"%char else d) (decodeWorkspaceName s).
Proof. done. Qed.

Lemma encode_no_separator p :
  every (fun c => negb (isSeparatorOrColon c)) (encodeWorkspacePath p) = true.
Proof.
  induction p as [|d p IH]; [done|].
  rewrite encode_cons. cbn [every]. rewrite IH, andb_true_r.
  destruct (isSeparatorOrColon d) eqn:E; [done|]. by rewrite E.
Qed.

Lemma encode_fixes_clean p :
  every (fun c => negb (isSeparatorOrColon c)) p = true → encodeWorkspacePath p = p.
Proof.
  induction p as [|d p IH]; [done|].
  cbn [every]. intros [Hd Hp]%andb_true_iff. rewrite encode_cons, (IH Hp).
  by destruct (isSeparatorOrColon d).
Qed.

(** X1.  [encodeWorkspacePath] keeps the length of the path, leaves no slash,
    backslash or colon in it, and changes nothing when applied again. *)
Theorem encodeWorkspacePath_flattens (workspacePath : string) :
  String.length (encodeWorkspacePath workspacePath) = String.length workspacePath
  ∧ every (fun c => negb (isSeparatorOrColon c)) (encodeWorkspacePath workspacePath) = true
  ∧ encodeWorkspacePath (encodeWorkspacePath workspacePath)
    = encodeWorkspacePath workspacePath.
Proof.
  split; [|split].
  - unfold encodeWorkspacePath. by rewrite !replaceChar_length.
  - apply encode_no_separator.
  - apply encode_fixes_clean, encode_no_separator.
Qed.

Lemma decode_encode_cons d p :
  decodeWorkspaceName (encodeWorkspacePath (String d p))
  = String (if isSeparatorOrColon d || Ascii.eqb d "-" then "/"%char else d)
           (decodeWorkspaceName (encodeWorkspacePath p)).
Proof.
  rewrite encode_cons, decode_cons. f_equal.
  destruct (isSeparatorOrColon d); [done|]. simpl. by destruct (Ascii.eqb d "-").
Qed.

(** X2.  Decoding an encoded workspace path gives the path back exactly when
    the path holds no hyphen, backslash or colon: each of these comes back
    as a slash.  So the directory name of [/home/eduardo/copilot-api-codex]
    decodes to [/home/eduardo/copilot/api/codex]. *)
Theorem decode_encode_round_trip (workspacePath : string) :
  (decodeWorkspaceName (encodeWorkspacePath workspacePath) = workspacePath
   ↔ every (fun c => negb (isLossy c)) workspacePath = true)
  ∧ decodeWorkspaceName (encodeWorkspacePath "/home/eduardo/copilot-api-codex")
    = "/home/eduardo/copilot/api/codex".
Proof.
  split; [|reflexivity].
  induction workspacePath as [|d p IH]; [done|].
  rewrite decode_encode_cons. cbn [every]. rewrite andb_true_iff, <- IH.
  unfold isSeparatorOrColon, isLossy.
  destruct (Ascii.eqb_spec d "/") as [->|Hs].
  { split; [intros [= ->]|intros [_ ->]]; done. }
  destruct (Ascii.eqb_spec d backslash) as [->|Hb].
  { split; [intros [= Hd _]|intros [Hd _]]; done. }
  destruct (Ascii.eqb_spec d ":") as [->|Hc].
  { split; [intros [= Hd _]|intros [Hd _]]; done. }
  destruct (Ascii.eqb_spec d "-") as [->|Hh].
  { split; [intros [= Hd _]|intros [Hd _]]; done. }
  simpl. split; [intros [= ->]|intros [_ ->]]; done.
Qed.

(** *** Reading a log *)
Lemma splitOn_go_app sep cur a b :
  splitOn_go sep cur (a +:+ String sep b)
  = splitOn_go sep cur a ++ splitOn_go sep EmptyString b.
Proof.
  revert cur. induction a as [|c a IH]; intros cur.
  - change (EmptyString +:+ String sep b) with (String sep b).
    cbn [splitOn_go]. by rewrite Ascii.eqb_refl.
  - change (String c a +:+ String sep b) with (String c (a +:+ String sep b)).
    cbn [splitOn_go]. destruct (Ascii.eqb c sep); rewrite IH; done.
Qed.

Section Reader.
Variable parseLine : string -> option SessionEvent.t.
Variable mostRecentSessionFile : string -> option string.
Variable readFile : string -> option string.

Lemma fold_pushParsed lines events :
  fold_left (pushParsed parseLine) lines events = events ++ omap parseLine lines.
Proof.
  revert events. induction lines as [|l lines IH]; intros events; simpl.
  - by rewrite app_nil_r.
  - rewrite IH. unfold pushParsed. destruct (parseLine l); simpl.
    + by rewrite <- app_assoc.
    + done.
Qed.

Lemma nonBlankLines_app c1 c2 :
  nonBlankLines (c1 +:+ String lineFeed c2) = nonBlankLines c1 ++ nonBlankLines c2.
Proof.
  unfold nonBlankLines, splitOn. rewrite splitOn_go_app. apply List.filter_app.
Qed.

Lemma parseContent_omap content :
  parseContent parseLine content = omap parseLine (nonBlankLines content).
Proof. unfold parseContent. by rewrite fold_pushParsed. Qed.

(** X3.  The events read from a log are the non-blank lines that parse, in
    the order of the lines: a line that does not parse is left out and the
    lines after it are still read.  So the events of a log grown by more
    lines are the events of the old text followed by those of the added
    lines, and the changes extracted from the grown log begin with the
    changes of the old one. *)
Theorem parseContent_line_by_line (content more : string) :
  parseContent parseLine content = omap parseLine (nonBlankLines content)
  ∧ parseContent parseLine (content +:+ String lineFeed more)
    = parseContent parseLine content ++ parseContent parseLine more
  ∧ extractFileChanges (parseContent parseLine (content +:+ String lineFeed more))
    = extractFileChanges (parseContent parseLine content)
      ++ extractFileChanges (parseContent parseLine more).
Proof.
  assert (Happ : parseContent parseLine (content +:+ String lineFeed more)
                 = parseContent parseLine content ++ parseContent parseLine more).
  { rewrite !parseContent_omap, nonBlankLines_app. apply omap_app. }
  split; [apply parseContent_omap|]. split; [done|].
  rewrite Happ. apply SessionParserFacts.extract_app.
Qed.

End Reader.

(** *** Session summaries *)
Lemma fold_setAdd_spec xs acc :
  NoDup acc →
  NoDup (fold_left setAdd xs acc)
  ∧ (∀ x, x ∈ fold_left setAdd xs acc ↔ x ∈ acc ∨ x ∈ xs)
  ∧ length (fold_left setAdd xs acc) ≤ length acc + length xs.
Proof.
  revert acc. induction xs as [|y xs IH]; intros acc Hnd; simpl.
  - split; [done|]. split; [|lia]. intros x. split; [by left|].
    intros [?|Hx]; [done|]. by apply elem_of_nil in Hx.
  - unfold setAdd at 2 4 6. destruct (decide (y ∈ acc)) as [Hy|Hy].
    + destruct (IH acc Hnd) as (H1 & H2 & H3). split; [done|]. split; [|lia].
      intros x. rewrite H2, elem_of_cons. split; [intros [?|?]; auto|].
      intros [?|[->|?]]; auto.
    + destruct (IH (acc ++ [y])) as (H1 & H2 & H3).
      { apply NoDup_app. split; [done|]. split; [|apply NoDup_singleton].
        intros x Hx ->%list_elem_of_singleton. done. }
      split; [done|]. split.
      * intros x. rewrite H2, elem_of_app, list_elem_of_singleton, elem_of_cons.
        split; [intros [[?|?]|?]; auto|intros [?|[?|?]]; auto].
      * rewrite length_app in H3. simpl in H3. lia.
Qed.

(** X4.  [getSessionMetadata] gives nothing exactly for an empty event
    list.  Otherwise [totalChanges] counts the extracted records, and
    [filesModified] lists each path of an extracted record once: it has no
    duplicates, holds exactly the paths of the records, and is no longer
    than [totalChanges]. *)
Theorem getSessionMetadata_summary (events : list LoggedEvent) :
  match getSessionMetadata events with
  | None => events = []
  | Some md =>
      events ≠ []
      ∧ totalChanges md = length (extractFileChanges (event <$> events))
      ∧ NoDup (filesModified md)
      ∧ (∀ f, f ∈ filesModified md
              ↔ f ∈ FileChange.filePath <$> extractFileChanges (event <$> events))
      ∧ length (filesModified md) ≤ totalChanges md
  end.
Proof.
  destruct events as [|e0 events]; [done|].
  cbn [getSessionMetadata totalChanges filesModified].
  set (changes := extractFileChanges (event <$> e0 :: events)).
  destruct (fold_setAdd_spec (FileChange.filePath <$> changes) [])
    as (Hnd & Hin & Hlen); [constructor|].
  split; [done|]. split; [done|]. split; [done|]. split.
  - intros f. unfold distinct. rewrite Hin. split; [|by right].
    intros [Hf|?]; [by apply elem_of_nil in Hf|done].
  - unfold distinct. rewrite length_fmap in Hlen. simpl in Hlen. lia.
Qed.

Section RecentChanges.
Variable parseLine : string -> option SessionEvent.t.
Variable mostRecentSessionFile : string -> option string.
Variable readFile : string -> option string.

(** X5.  [getRecentChanges] returns the first [limit] changes of the
    current session in log order, so the oldest ones, and all of them when
    there are fewer (none for limit 0); a negative limit drops that many
    from the end instead.  Without a session file it returns nothing. *)
Theorem getRecentChanges_takes_first (workspacePath : string) (n : nat) :
  let current := getCurrentSessionChanges parseLine mostRecentSessionFile readFile
                   workspacePath in
  let recent := getRecentChanges parseLine mostRecentSessionFile readFile
                  workspacePath in
  recent (Z.of_nat n) = take n current
  ∧ recent (- Z.of_nat (S n))%Z = take (length current - S n) current
  ∧ (mostRecentSessionFile workspacePath = None → recent (Z.of_nat n) = []).
Proof.
  intros current recent. subst recent. unfold getRecentChanges. fold current.
  assert (Hpos : slice0 current (Z.of_nat n) = take n current).
  { unfold slice0. assert ((Z.of_nat n <? 0)%Z = false) as -> by (apply Z.ltb_ge; lia).
    destruct (decide (n ≤ length current)).
    - f_equal. lia.
    - rewrite !take_ge by lia. done. }
  split; [done|]. split.
  - unfold slice0.
    assert ((- Z.of_nat (S n) <? 0)%Z = true) as -> by (apply Z.ltb_lt; lia).
    f_equal. lia.
  - intros Hnone. rewrite Hpos. subst current. unfold getCurrentSessionChanges.
    rewrite Hnone. by destruct n.
Qed.

End RecentChanges.

Lemma getRecentChanges_takes_first_witness :
  let noFile := fun _ : string => @None string in
  getRecentChanges sampleParseLine noFile noFile "/home/u/project" 50 = [].
Proof.
  exact (proj2 (proj2 (getRecentChanges_takes_first sampleParseLine
                         (fun _ => None) (fun _ => None) "/home/u/project" 50))
               eq_refl).
Defined.

(** *** What an extracted record looks like *)
Lemma every_removeAll_quotes s :
  every (fun c => negb (isWhiteSpace c)) s = true →
  every (fun c => negb (isWhiteSpace c || isQuote c)) (removeAll isQuote s) = true.
Proof.
  induction s as [|c s IH]; [done|]. cbn [every removeAll].
  intros [Hc Hs]%andb_true_iff. destruct (isQuote c) eqn:E; [by apply IH|].
  cbn [every]. rewrite IH by done. rewrite E. by destruct (isWhiteSpace c).
Qed.

Lemma truthy_nonempty s : truthy s = true → s ≠ EmptyString.
Proof. by intros H ->. Qed.

Lemma itemChanges_shape e item r :
  r ∈ itemChanges e item →
  extracted r
  ∧ FileChange.sessionId r = SessionEvent.sessionId e
  ∧ FileChange.timestamp r = SessionEvent.timestamp e
  ∧ FileChange.messageUuid r = SessionEvent.uuid e
  ∧ FileChange.parentUuid r = SessionEvent.parentUuid e
  ∧ FileChange.gitBranch r = SessionEvent.gitBranch e.
Proof.
  unfold itemChanges, processItem.
  destruct item as [|id name input|]; [by intros ?%elem_of_nil| |by intros ?%elem_of_nil].
  destruct (String.eqb name "Edit" || String.eqb name "Write").
  - destruct (file_path input) as [path|]; [|by intros ?%elem_of_nil].
    destruct (truthy path) eqn:Hp; [|by intros ?%elem_of_nil].
    intros ->%list_elem_of_singleton. apply truthy_nonempty in Hp.
    by destruct (String.eqb name "Edit").
  - destruct (String.eqb name "Bash"); [|by intros ?%elem_of_nil].
    destruct (rmMatch _) as [g|]; [|by intros ?%elem_of_nil].
    rewrite SessionParserFacts.fold_pushDelete_fragments.
    intros (q & -> & Hq)%list_elem_of_fmap.
    apply list_elem_of_In, filter_In in Hq as [Hq Hne].
    apply list_elem_of_In, list_elem_of_fmap in Hq as (f & -> & Hf).
    apply list_elem_of_In, filter_In in Hf as [Hf _].
    apply list_elem_of_In in Hf.
    pose proof (proj1 (Forall_forall _ _) (JsFacts.splitWs_no_space g) f Hf) as Hns.
    split; [|done]. split; [by apply truthy_nonempty|]. split; [done|].
    cbn. repeat split. by apply every_removeAll_quotes.
Qed.

Lemma walkedItems_assistant e item :
  item ∈ walkedItems e → SessionEvent.type e = assistant.
Proof.
  unfold walkedItems, contentItems.
  destruct (SessionEvent.type e); try by intros ?%elem_of_nil. done.
Qed.

Lemma extract_origin events r :
  r ∈ extractFileChanges events →
  ∃ e item, e ∈ events ∧ item ∈ walkedItems e ∧ r ∈ itemChanges e item.
Proof.
  rewrite SessionParserFacts.extract_flat.
  intros (e & He & Hr)%list_elem_of_In%in_flat_map.
  apply in_flat_map in Hr as (item & Hi & Hr).
  exists e, item. by rewrite !list_elem_of_In.
Qed.

(** X6.  Every record [extractFileChanges] returns has a non-empty path,
    is not marked heuristic and never has the tool Heuristic; a Write
    record has no old content, a Delete record has [isDeleted] true, no
    content and a path free of white space and quotes; and each record
    carries the session id, timestamp, uuid, parent uuid and branch of an
    assistant event of the input.  Events of other types add nothing:
    dropping them from the input changes no result. *)
Theorem extracted_records_are_well_formed (events : list SessionEvent.t) :
  Forall (fun r => extracted r ∧ ∃ e, e ∈ events ∧ stampedBy e r)
         (extractFileChanges events)
  ∧ extractFileChanges (List.filter isAssistant events) = extractFileChanges events.
Proof.
  split.
  - apply Forall_forall. intros r (e & item & He & Hi & Hr)%extract_origin.
    destruct (itemChanges_shape e item r Hr) as (Hx & H1 & H2 & H3 & H4 & H5).
    split; [done|]. exists e. split; [done|].
    split; [by apply (walkedItems_assistant e item)|done].
  - rewrite !SessionParserFacts.extract_flat.
    induction events as [|e events IH]; [done|]. cbn [List.filter flat_map].
    unfold isAssistant at 1. destruct (SessionEvent.type e) eqn:E;
      cbn [flat_map]; rewrite IH; try done.
    all: unfold walkedItems, contentItems; by rewrite E.
Qed.

End SessionLogFacts.

(** ** Glob translation, view columns and relative times *)
Module HelpersFacts.
Import Helpers.

Lemma append_assoc_string (a b c : string) : (a +:+ b) +:+ c = a +:+ (b +:+ c).
Proof.
  induction a as [|d a IH]; [done|].
  change (String d a +:+ b) with (String d (a +:+ b)).
  change (String d (a +:+ b) +:+ c) with (String d ((a +:+ b) +:+ c)).
  by rewrite IH.
Qed.

Lemma replaceEach_app c r a b :
  replaceEach c r (a +:+ b) = replaceEach c r a +:+ replaceEach c r b.
Proof.
  induction a as [|d a IH]; [done|].
  change (String d a +:+ b) with (String d (a +:+ b)). cbn [replaceEach].
  rewrite IH. destruct (Ascii.eqb d c); [|done].
  by rewrite append_assoc_string.
Qed.

Lemma replaceStarStar_pair s :
  replaceStarStar (String "*" (String "*" s)) = ".*" +:+ replaceStarStar s.
Proof. done. Qed.

Lemma replaceStarStar_single d s :
  d ≠ "*"%char →
  replaceStarStar (String "*" (String d s)) = String "*" (replaceStarStar (String d s)).
Proof.
  intros Hd%Ascii.eqb_neq. cbn [replaceStarStar]. rewrite Ascii.eqb_refl.
  by rewrite Hd.
Qed.

Lemma replaceStarStar_other c s :
  c ≠ "*"%char → replaceStarStar (String c s) = String c (replaceStarStar s).
Proof. intros Hc%Ascii.eqb_neq. cbn [replaceStarStar]. by rewrite Hc. Qed.

Lemma translateGlob_pair s :
  translateGlob (String "*" (String "*" s)) = ".[^/]*" +:+ translateGlob s.
Proof. done. Qed.

Lemma translateGlob_single d s :
  d ≠ "*"%char →
  translateGlob (String "*" (String d s)) = "[^/]*" +:+ translateGlob (String d s).
Proof.
  intros Hd%Ascii.eqb_neq. cbn [translateGlob]. rewrite Ascii.eqb_refl.
  by rewrite Hd.
Qed.

Lemma translateGlob_other c s :
  c ≠ "*"%char →
  translateGlob (String c s)
  = if Ascii.eqb c "?" then "[^/]" +:+ translateGlob s else String c (translateGlob s).
Proof. intros Hc%Ascii.eqb_neq. cbn [translateGlob]. by rewrite Hc. Qed.

Lemma globToRegexSource_cons2 c s :
  globToRegexSource s = translateGlob s
  ∧ globToRegexSource (String c s) = translateGlob (String c s).
Proof.
  revert c. induction s as [|d s IH]; intros c.
  - split; [done|]. unfold globToRegexSource.
    destruct (Ascii.eqb_spec c "*") as [->|Hs]; [done|].
    rewrite replaceStarStar_other, translateGlob_other by done.
    cbn. rewrite (proj2 (Ascii.eqb_neq _ _) Hs). cbn.
    by destruct (Ascii.eqb c "?").
  - destruct (IH d) as [IHs IHd]. split; [done|].
    unfold globToRegexSource in *.
    destruct (Ascii.eqb_spec c "*") as [->|Hs].
    + destruct (Ascii.eqb_spec d "*") as [->|Hd].
      * rewrite replaceStarStar_pair, translateGlob_pair, !replaceEach_app.
        rewrite IHs. done.
      * rewrite replaceStarStar_single, translateGlob_single by done.
        cbn [replaceEach]. rewrite Ascii.eqb_refl, replaceEach_app, IHd. done.
    + rewrite replaceStarStar_other, translateGlob_other by done.
      cbn [replaceEach]. rewrite (proj2 (Ascii.eqb_neq _ _) Hs).
      cbn [replaceEach]. destruct (Ascii.eqb c "?"); by rewrite IHd.
Qed.

(** X7.  The three chained replacements that turn an exclusion glob into
    the source of a regular expression amount to one pass over the
    pattern in which [?] becomes [[^/]], a single [*] becomes [[^/]*], and
    [**] becomes [.[^/]*]: the [.*] written for [**] by the first
    replacement is rewritten by the second one.  The pattern
    [**/node_modules/**] thus becomes [.[^/]*/node_modules/.[^/]*]. *)
Theorem globToRegexSource_one_pass (pattern : string) :
  globToRegexSource pattern = translateGlob pattern
  ∧ globToRegexSource "**/node_modules/**" = ".[^/]*/node_modules/.[^/]*".
Proof. split; [apply (globToRegexSource_cons2 "a")|reflexivity]. Qed.

Lemma div_positive d k : (0 < k → (0 <? d / k) = (k <=? d))%Z.
Proof.
  intros Hk. destruct (Z.leb_spec k d) as [Hle|Hlt].
  - apply Z.ltb_lt. pose proof (Z.div_le_lower_bound d k 1 Hk). lia.
  - apply Z.ltb_ge. pose proof (Z.div_lt_upper_bound d k 1 Hk). lia.
Qed.

(** X8.  [formatTimeAgo] says [just now] for any difference below one
    minute, a timestamp in the future included; from one minute on it
    gives the whole minutes, from one hour on the whole hours and from one
    day on the whole days that fit into the difference, each as the
    difference divided directly by the length of the unit. *)
Theorem formatTimeAgo_units (nowMs dateMs : Z) :
  let diffMs := (nowMs - dateMs)%Z in
  formatTimeAgo nowMs dateMs
  = if (diffMs <? 60000)%Z then "just now"
    else if (diffMs <? 3600000)%Z then pretty (diffMs / 60000)%Z +:+ "m ago"
    else if (diffMs <? 86400000)%Z then pretty (diffMs / 3600000)%Z +:+ "h ago"
    else pretty (diffMs / 86400000)%Z +:+ "d ago".
Proof.
  intros diffMs. unfold formatTimeAgo. fold diffMs.
  assert (diffMs / 1000 / 60 = diffMs / 60000)%Z as ->
    by (by rewrite Zdiv.Zdiv_Zdiv by lia).
  assert (diffMs / 60000 / 60 = diffMs / 3600000)%Z as ->
    by (by rewrite Zdiv.Zdiv_Zdiv by lia).
  assert (diffMs / 3600000 / 24 = diffMs / 86400000)%Z as ->
    by (by rewrite Zdiv.Zdiv_Zdiv by lia).
  rewrite !div_positive by lia.
  destruct (Z.ltb_spec diffMs 60000), (Z.ltb_spec diffMs 3600000),
    (Z.ltb_spec diffMs 86400000), (Z.leb_spec 86400000 diffMs),
    (Z.leb_spec 3600000 diffMs), (Z.leb_spec 60000 diffMs); try lia; done.
Qed.

Lemma has_rank_cases (P : ViewColumn → Prop) :
  P Active → P Beside → P One → P Two → P Three → P Four → P Five → P Six →
  P Seven → P Eight → P Nine → ∀ x, P x.
Proof. intros. by destruct x. Qed.

(** Destruct, one at a time, the membership tests the search looks at. *)
Ltac scan used :=
  repeat match goal with
         | |- context [negb (has used ?c)] =>
             let E := fresh "E" in destruct (has used c) eqn:E; cbn
         end.

Ltac settle_columns :=
  first
    [ left; split; [assumption|]; split; [cbn; lia|];
      intros x; pattern x; apply has_rank_cases; cbn; intros;
      first [assumption | reflexivity | lia]
    | right; split; [reflexivity|];
      intros x; pattern x; apply has_rank_cases; cbn; intros;
      first [assumption | reflexivity | lia] ].

(** X9.  [getNextViewColumn] never answers column One.  With a positive
    limit it answers the first candidate column (Two to Nine, in that
    order) that no visible editor uses, looking only at the first
    [liveMaxOpenDiffs] candidates, and column Two when all of those are in
    use; without a limit it answers the first unused candidate of all
    eight, and Beside when all eight are in use. *)
Theorem getNextViewColumn_first_unused (maxOpenDiffs : Z)
    (usedColumns : list ViewColumn) :
  let c := getNextViewColumn maxOpenDiffs usedColumns in
  let limit := Z.min maxOpenDiffs 8 in
  c ≠ One
  ∧ ((0 < maxOpenDiffs)%Z →
       (has usedColumns c = false ∧ (1 ≤ rank c ≤ limit)%Z
        ∧ ∀ x, (1 ≤ rank x < rank c)%Z → has usedColumns x = true)
       ∨ (c = Two ∧ ∀ x, (1 ≤ rank x ≤ limit)%Z → has usedColumns x = true))
  ∧ ((maxOpenDiffs ≤ 0)%Z →
       (has usedColumns c = false ∧ (1 ≤ rank c)%Z
        ∧ ∀ x, (1 ≤ rank x < rank c)%Z → has usedColumns x = true)
       ∨ (c = Beside ∧ ∀ x, (1 ≤ rank x)%Z → has usedColumns x = true)).
Proof.
  intros c limit. subst c limit. unfold getNextViewColumn.
  destruct (Z.ltb_spec 0 maxOpenDiffs) as [Hpos|Hneg].
  - assert (Hk : ∃ k, (1 ≤ k ≤ 8)%nat
                      ∧ Z.to_nat (Z.min maxOpenDiffs (Z.of_nat (length columnsToTry))) = k
                      ∧ Z.min maxOpenDiffs 8 = Z.of_nat k).
    { exists (Z.to_nat (Z.min maxOpenDiffs 8)). cbn [columnsToTry length]. lia. }
    destruct Hk as (k & Hk & -> & ->).
    split; [|split; [|lia]].
    + do 9 (destruct k as [|k]; [cbn; scan usedColumns; done|]). lia.
    + intros _.
      do 9 (destruct k as [|k];
            [first [lia | cbn; scan usedColumns; settle_columns]|]).
      lia.
  - split; [|split; [lia|]].
    + cbn. scan usedColumns; done.
    + intros _. cbn. scan usedColumns; settle_columns.
Qed.

Lemma getNextViewColumn_first_unused_witness :
  has [One; Two; Four] (getNextViewColumn 5 [One; Two; Four]) = false
  ∨ getNextViewColumn 5 [One; Two; Four] = Two.
Proof.
  destruct (getNextViewColumn_first_unused 5 [One; Two; Four]) as (_ & Hpos & _).
  destruct Hpos as [(Hfree & _)|(Htwo & _)]; [lia|by left|by right].
Defined.

(** *** [getBaseName] *)
Lemma splitWhere_go_plain p cur s :
  Js.every (fun c => negb (p c)) s = true → splitWhere_go p cur s = [cur +:+ s].
Proof.
  revert cur. induction s as [|c s IH]; intros cur H; cbn [splitWhere_go].
  - f_equal. clear H. induction cur as [|d cur IHc]; [done|].
    change (String d cur +:+ EmptyString) with (String d (cur +:+ EmptyString)).
    by rewrite <- IHc.
  - cbn [Js.every] in H. apply andb_true_iff in H as [Hc Hs].
    apply negb_true_iff in Hc. rewrite Hc, IH by done.
    by rewrite append_assoc_string.
Qed.

Lemma splitWhere_go_nonempty p cur s : splitWhere_go p cur s ≠ [].
Proof.
  revert cur. induction s as [|c s IH]; intros cur; cbn [splitWhere_go]; [done|].
  destruct (p c); [done|apply IH].
Qed.

Lemma last_splitWhere_go p cur dir sep rest d :
  p sep = true →
  List.last (splitWhere_go p cur (dir +:+ String sep rest)) d
  = List.last (splitWhere_go p EmptyString rest) d.
Proof.
  intros Hsep. revert cur. induction dir as [|c dir IH]; intros cur.
  - change (EmptyString +:+ String sep rest) with (String sep rest).
    cbn [splitWhere_go]. rewrite Hsep.
    pose proof (splitWhere_go_nonempty p EmptyString rest) as Hne.
    by destruct (splitWhere_go p EmptyString rest).
  - change (String c dir +:+ String sep rest) with (String c (dir +:+ String sep rest)).
    cbn [splitWhere_go]. destruct (p c); [|apply IH].
    pose proof (splitWhere_go_nonempty p EmptyString (dir +:+ String sep rest)) as Hne.
    rewrite <- (IH EmptyString).
    by destruct (splitWhere_go p EmptyString (dir +:+ String sep rest)).
Qed.

(** X10.  [getBaseName] returns what follows the last slash or backslash
    of the path when that is not empty, and the whole path otherwise: a
    path without a separator comes back as it is, and so does a path that
    ends in a separator, separators included. *)
Theorem getBaseName_last_fragment (dir name : string) (sep : ascii) :
  isPathSeparator sep = true →
  Js.every (fun c => negb (isPathSeparator c)) name = true →
  getBaseName name = name
  ∧ getBaseName (dir +:+ String sep name)
    = (if Js.truthy name then name else dir +:+ String sep name).
Proof.
  intros Hsep Hname. unfold getBaseName, splitWhere. cbv zeta. split.
  - rewrite splitWhere_go_plain by done. cbn [List.last].
    change (EmptyString +:+ name) with name. by destruct name.
  - rewrite last_splitWhere_go by done.
    rewrite splitWhere_go_plain by done. cbn [List.last]. done.
Qed.

Lemma getBaseName_last_fragment_witness :
  getBaseName "src/views/tree.ts" = "tree.ts"
  ∧ getBaseName "src/views/" = "src/views/"
  ∧ getBaseName "tree.ts" = "tree.ts".
Proof.
  split; [|split].
  - exact (proj2 (getBaseName_last_fragment "src/views" "tree.ts" "/" eq_refl eq_refl)).
  - exact (proj2 (getBaseName_last_fragment "src/views" "" "/" eq_refl eq_refl)).
  - exact (proj1 (getBaseName_last_fragment "" "tree.ts" "/" eq_refl eq_refl)).
Defined.

End HelpersFacts.

(** ** Grouping changes and showing a diff *)
Module DiffTrackerFacts.
Import DiffTracker.

Lemma get_set {V : Type} (k k' : string) (v : V) m :
  JsMap.get k (JsMap.set k' v m) = if decide (k' = k) then Some v else JsMap.get k m.
Proof.
  induction m as [|[k0 v0] m IH]; cbn [JsMap.set JsMap.get].
  - done.
  - destruct (decide (k0 = k')) as [->|Hne]; cbn [JsMap.get].
    + by destruct (decide (k' = k)).
    + rewrite IH. destruct (decide (k0 = k)) as [->|?]; [|done].
      by rewrite decide_False.
Qed.

Lemma keys_set {V : Type} (k : string) (v : V) m :
  JsMap.keys (JsMap.set k v m) = SessionLog.setAdd (JsMap.keys m) k.
Proof.
  unfold JsMap.keys, SessionLog.setAdd.
  induction m as [|[k0 v0] m IH]; cbn [JsMap.set].
  - by rewrite decide_False by apply not_elem_of_nil.
  - destruct (decide (k0 = k)) as [->|Hne]; cbn.
    + by rewrite decide_True by apply list_elem_of_here.
    + rewrite IH. destruct (decide (k ∈ m.*1)) as [Hin|Hnin].
      * by rewrite decide_True by (by apply list_elem_of_further).
      * rewrite decide_False; [done|]. by intros [?|?]%elem_of_cons.
Qed.

Lemma concat_set (k : string) (c : FileChange.t) m :
  concat (JsMap.set k (default [] (JsMap.get k m) ++ [c]) m).*2
  ≡ₚ concat m.*2 ++ [c].
Proof.
  induction m as [|[k0 v0] m IH]; cbn [JsMap.set JsMap.get].
  - done.
  - destruct (decide (k0 = k)) as [->|Hne]; cbn.
    + rewrite <- !app_assoc. f_equiv. apply Permutation_app_comm.
    + rewrite IH. by rewrite app_assoc.
Qed.

Lemma get_fold_groupStep cs m path :
  JsMap.get path (fold_left groupStep cs m)
  = match filter (λ c, FileChange.filePath c = path) cs with
    | [] => JsMap.get path m
    | l => Some (default [] (JsMap.get path m) ++ l)
    end.
Proof.
  revert m. induction cs as [|c cs IH]; intros m; [done|].
  cbn [fold_left]. rewrite IH, filter_cons.
  assert (Hget : JsMap.get path (groupStep m c)
                 = if decide (FileChange.filePath c = path)
                   then Some (default [] (JsMap.get (FileChange.filePath c) m) ++ [c])
                   else JsMap.get path m) by (unfold groupStep; apply get_set).
  rewrite Hget.
  destruct (decide (FileChange.filePath c = path)) as [->|Hne].
  - destruct (filter _ cs); cbn; [done|]. by rewrite <- app_assoc.
  - done.
Qed.

Lemma keys_fold_groupStep cs m :
  JsMap.keys (fold_left groupStep cs m)
  = fold_left SessionLog.setAdd (FileChange.filePath <$> cs) (JsMap.keys m).
Proof.
  revert m. induction cs as [|c cs IH]; intros m; [done|].
  cbn [fold_left]. rewrite IH, fmap_cons. cbn [fold_left].
  f_equal. unfold groupStep. apply keys_set.
Qed.

Lemma concat_fold_groupStep cs m :
  concat (fold_left groupStep cs m).*2 ≡ₚ concat m.*2 ++ cs.
Proof.
  revert m. induction cs as [|c cs IH]; intros m; cbn [fold_left].
  - by rewrite app_nil_r.
  - rewrite IH. unfold groupStep. rewrite concat_set. by rewrite <- app_assoc.
Qed.

(** X11.  [groupChangesByFile] splits the changes by path and loses
    none: the keys are the distinct paths in the order of their first
    occurrence, the group of a path holds exactly the changes with that
    path in their original order (and a path without changes has no
    group), and the groups together are a rearrangement of the input. *)
Theorem groupChangesByFile_partitions (changes : list FileChange.t) (path : string) :
  let grouped := groupChangesByFile changes in
  JsMap.keys grouped = SessionLog.distinct (FileChange.filePath <$> changes)
  ∧ JsMap.get path grouped
    = match filter (λ c, FileChange.filePath c = path) changes with
      | [] => None
      | l => Some l
      end
  ∧ concat grouped.*2 ≡ₚ changes.
Proof.
  intros grouped. subst grouped. unfold groupChangesByFile. split; [|split].
  - by rewrite keys_fold_groupStep.
  - rewrite get_fold_groupStep. by destruct (filter _ changes).
  - by rewrite concat_fold_groupStep.
Qed.

Section Viewer.
Variable basename : string -> string.
Variable toLocaleString : string -> string.

(** X12.  [showDiff] writes the old content of the change (nothing when
    it has none) to the file [before-] plus the base name of its path and
    the new content to [after-] plus that base name, opens the diff of
    these two files, and touches no other file of the directory.  The
    names depend on the base name only: showing a change with the same
    base name afterwards leaves the directory as if the first one had never
    been shown, so both files then hold the second change. *)
Theorem showDiff_writes_two_files (change other : FileChange.t)
    (dir : gmap string string) (file : string) :
  let shown := showDiff basename toLocaleString change dir in
  let before := "before-" +:+ basename (FileChange.filePath change) in
  let after := "after-" +:+ basename (FileChange.filePath change) in
  shown.1 !! before = Some (orEmpty (FileChange.oldContent change))
  ∧ shown.1 !! after = Some (orEmpty (FileChange.newContent change))
  ∧ original shown.2 = before ∧ modified shown.2 = after
  ∧ (file ≠ before → file ≠ after → shown.1 !! file = dir !! file)
  ∧ (basename (FileChange.filePath other) = basename (FileChange.filePath change) →
     (showDiff basename toLocaleString other shown.1).1
     = (showDiff basename toLocaleString other dir).1).
Proof.
  intros shown before after. subst shown before after.
  unfold showDiff, createTempFile. cbn [fst snd original modified].
  set (b := basename (FileChange.filePath change)).
  assert (Hne : "after-" +:+ b ≠ "before-" +:+ b) by (intros H; cbv [String.append] in H; discriminate H).
  split; [|split; [|split; [|split; [|split]]]]; try done.
  - rewrite lookup_insert_ne by done. by rewrite lookup_insert_eq.
  - by rewrite lookup_insert_eq.
  - intros H1 H2. by rewrite !lookup_insert_ne.
  - intros ->. fold b. apply map_eq. intros i.
    rewrite !lookup_insert. by repeat case_decide.
Qed.

End Viewer.

Lemma showDiff_writes_two_files_witness :
  let keep := fun x : string => x in
  let a := LiveDiffTracker.sampleChange "s1" "u1" "a.ts" in
  let dir := {[ "notes.txt" := "kept" ]} : gmap string string in
  (showDiff keep keep a dir).1 !! "notes.txt" = Some "kept"
  ∧ (showDiff keep keep a (showDiff keep keep a dir).1).1 = (showDiff keep keep a dir).1.
Proof.
  destruct (showDiff_writes_two_files (fun x => x) (fun x => x)
              (LiveDiffTracker.sampleChange "s1" "u1" "a.ts")
              (LiveDiffTracker.sampleChange "s1" "u1" "a.ts")
              {[ "notes.txt" := "kept" ]} "notes.txt")
    as (_ & _ & _ & _ & Hother & Hsame).
  split.
  - rewrite Hother; [reflexivity| |]; intros H; vm_compute in H; discriminate H.
  - exact (Hsame eq_refl).
Defined.

End DiffTrackerFacts.

(** ** The live tracker over whole runs *)
Module LiveDiffTrackerRuns.
Import LiveDiffTracker TimeoutFacts LiveDiffTrackerFacts.

Lemma run_app es1 es2 s :
  run s (es1 ++ es2)
  = ((run (run s es1).1 es2).1, (run s es1).2 ++ (run (run s es1).1 es2).2).
Proof.
  revert s. induction es1 as [|e es1 IH]; intros s; cbn [run app fst snd].
  - by destruct (run s es2).
  - rewrite IH. cbn [fst snd]. by rewrite app_assoc.
Qed.

Lemma run_snoc es e s :
  run s (es ++ [e])
  = ((step (run s es).1 e).1, (run s es).2 ++ (step (run s es).1 e).2).
Proof. rewrite run_app. cbn [run fst snd]. by rewrite app_nil_r. Qed.

(** A timeout armed after [processChanges] was armed before, or carries
    a record of the call, which was not suppressed and found the tracker
    enabled and the key unseen. *)
Lemma processChanges_timers cs skip s h tmo :
  timers (processChanges cs skip s) !! h = Some tmo →
  timers s !! h = Some tmo
  ∨ (skip = false ∧ isEnabled s = true ∧ change tmo ∈ cs
     ∧ getChangeKey (change tmo) ∉ lastSeenChanges s).
Proof.
  destruct (isEnabled s) eqn:Hen; [|rewrite processChanges_skipped by auto; by left].
  destruct cs as [|c0 cs0]; [rewrite processChanges_skipped by auto; by left|].
  destruct skip; [rewrite processChanges_skipped by auto; by left|].
  destruct (processChanges_unfold (c0 :: cs0) s Hen) as (new & -> & _ & Hnew); [done|].
  intros [Hin|H]%fold_scheduleDiff_timers; [|by left].
  right. destruct (Hnew _ Hin) as [? ?]. done.
Qed.

Lemma step_timers s e h tmo :
  timers (step s e).1 !! h = Some tmo →
  timers s !! h = Some tmo
  ∨ ∃ cs, e = ProcessChanges cs false ∧ isEnabled s = true ∧ change tmo ∈ cs
          ∧ getChangeKey (change tmo) ∉ lastSeenChanges s.
Proof.
  destruct e; cbn [step fst].
  - destruct enabled; [by left|]. fields. intros H%clearTimeouts_Some. by left.
  - by left.
  - intros [H|(-> & ? & ? & ?)]%processChanges_timers; [by left|].
    right. by exists changes.
  - fields. intros H%clearTimeouts_Some. by left.
  - unfold dispose. fields. intros H%clearTimeouts_Some. by left.
  - unfold timerFires. destruct (timers s !! h0) as [tmo0|]; [|by left].
    cbn [fst timers]. intros [_ H]%lookup_delete_Some. by left.
  - unfold showDiffSettles. case_decide; by left.
Qed.

Lemma step_output s e c :
  c ∈ (step s e).2 → ∃ h tmo, e = TimerFires h ∧ timers s !! h = Some tmo ∧ change tmo = c.
Proof.
  destruct e; cbn [step snd]; try by intros ?%elem_of_nil.
  unfold timerFires. destruct (timers s !! h) as [tmo|] eqn:E; cbn [snd].
  - intros ->%list_elem_of_singleton. by exists h, tmo.
  - by intros ?%elem_of_nil.
Qed.

(** X13.  Whatever happens to a fresh tracker, every change it hands to
    [showDiff] was passed to [processChanges] in one of the events, in a
    call that was not suppressed and that found the tracker enabled and
    the key of the change unseen.  The events are calls of the methods
    with any arguments, firings of armed timeouts in any order and
    completions of [showDiff]. *)
Theorem shown_changes_were_submitted (es : list event) :
  Forall (λ c, ∃ before cs after,
            es = before ++ ProcessChanges cs false :: after
            ∧ c ∈ cs
            ∧ isEnabled (run new before).1 = true
            ∧ (getChangeKey c ∉ lastSeenChanges (run new before).1))
         (run new es).2.
Proof.
  apply Forall_forall.
  set (Q := λ (es : list event) (c : FileChange.t),
         ∃ before cs after,
           es = before ++ ProcessChanges cs false :: after
           ∧ c ∈ cs
           ∧ isEnabled (run new before).1 = true
           ∧ (getChangeKey c ∉ lastSeenChanges (run new before).1)).
  assert (Hmono : ∀ es e c, Q es c → Q (es ++ [e]) c).
  { intros es' e c (before & cs & after & -> & ? & ? & ?).
    exists before, cs, (after ++ [e]). by rewrite <- app_assoc. }
  enough (∀ es, (∀ h tmo, timers (run new es).1 !! h = Some tmo → Q es (change tmo))
                ∧ (∀ c, c ∈ (run new es).2 → Q es c)) as H by apply H.
  clear es. intros es. induction es as [|e es [IHt IHo]] using rev_ind.
  - split.
    + intros h tmo H. cbn [run fst new timers] in H. by rewrite lookup_empty in H.
    + intros c H. by apply elem_of_nil in H.
  - rewrite run_snoc. cbn [fst snd]. split.
    + intros h tmo [H|(cs & -> & Hen & Hin & Hnew)]%step_timers.
      * by apply Hmono, (IHt h).
      * by exists es, cs, [].
    + intros c [H|H]%elem_of_app.
      * by apply Hmono, IHo.
      * apply step_output in H as (h & tmo & _ & Ht & <-). by apply Hmono, (IHt h).
Qed.

Lemma processChanges_one s c :
  isEnabled s = true → getChangeKey c ∉ lastSeenChanges s →
  processChanges [c] false s
  = scheduleDiff (withSeen (lastSeenChanges s ∪ {[getChangeKey c]}) s) c.
Proof.
  intros Hen Hnew. unfold processChanges. rewrite Hen. cbn [negb orb length Nat.eqb fold_left].
  unfold identifyNew. cbn [fst snd]. rewrite decide_False by done. done.
Qed.

Lemma timerFires_armed h s tmo :
  timers s !! h = Some tmo →
  timerFires h s
  = ({| lastSeenChanges := lastSeenChanges s; pendingDiffs := pendingDiffs s;
        isEnabled := isEnabled s; delay := delay s;
        timers := delete h (timers s); nextTimer := nextTimer s;
        awaiting := awaiting s ++ [getChangeKey (change tmo)] |},
     [change tmo]).
Proof. intros H. unfold timerFires. by rewrite H. Qed.

Lemma values_empty : values (∅ : gmap string nat) = [].
Proof. unfold values. by rewrite map_to_list_empty. Qed.

(** X14.  A record whose key is unseen, given to an enabled tracker,
    gets the next timeout handle, armed with the delay of that moment; the
    pending map holds that handle under the key of the record and the key
    is seen.  When the timeout fires, the record and nothing else is handed
    to [showDiff], and when [showDiff] has settled the pending entry is
    gone.  After [reset()] this holds for every record, seen before or
    not. *)
Theorem unseen_record_is_scheduled_and_shown (s : t) (c : FileChange.t) (d : Z) :
  isEnabled s = true →
  (getChangeKey c ∉ lastSeenChanges s →
   let s1 := processChanges [c] false (setDelay d s) in
   timers s1 !! nextTimer s = Some (mkTimeout c d)
   ∧ pendingDiffs s1 !! getChangeKey c = Some (nextTimer s)
   ∧ getChangeKey c ∈ lastSeenChanges s1
   ∧ (run s1 [TimerFires (nextTimer s)]).2 = [c]
   ∧ timers (run s1 [TimerFires (nextTimer s)]).1 !! nextTimer s = None
   ∧ pendingDiffs
       (run s1 [TimerFires (nextTimer s); ShowDiffSettles (getChangeKey c)]).1
     !! getChangeKey c = None)
  ∧ (run (reset s) [ProcessChanges [c] false; TimerFires (nextTimer s)]).2 = [c].
Proof.
  intros Hen. split.
  - intros Hnew s1. subst s1. rewrite processChanges_one by done.
    unfold scheduleDiff, setDelay, withSeen.
    cbn [timers pendingDiffs lastSeenChanges nextTimer delay awaiting isEnabled].
    split; [by rewrite lookup_insert_eq|]. split; [by rewrite lookup_insert_eq|].
    split; [set_solver|].
    cbn [run step fst snd]. unfold timerFires. cbn [timers].
    rewrite lookup_insert_eq. cbn [fst snd change app timers].
    split; [done|]. split; [by rewrite lookup_delete_eq|].
    unfold showDiffSettles. cbn [awaiting pendingDiffs].
    rewrite decide_True by (apply elem_of_app; right; apply list_elem_of_here).
    cbn [pendingDiffs]. by rewrite lookup_delete_eq.
  - cbn [run step fst snd].
    rewrite processChanges_one by (done || (cbn [reset lastSeenChanges]; set_solver)).
    unfold timerFires, scheduleDiff. cbn [timers reset withSeen nextTimer].
    by rewrite lookup_insert_eq.
Qed.

Lemma unseen_record_is_scheduled_and_shown_witness :
  let a := sampleChange "s1" "u1" "/w/a.ts" in
  let b := sampleChange "s1" "u2" "/w/b.ts" in
  let s := (run new [SetEnabled true; ProcessChanges [a] false; TimerFires 0;
                     ShowDiffSettles (getChangeKey a)]).1 in
  (isEnabled s = true ∧ nextTimer s = 1%nat
   ∧ getChangeKey a ∈ lastSeenChanges s ∧ getChangeKey b ∉ lastSeenChanges s)
  ∧ timers (processChanges [b] false (setDelay 250 s)) !! 1%nat = Some (mkTimeout b 250)
  ∧ (run (processChanges [b] false (setDelay 250 s)) [TimerFires 1]).2 = [b]
  ∧ (run (reset s) [ProcessChanges [a] false; TimerFires 1]).2 = [a].
Proof.
  assert (Hb : getChangeKey (sampleChange "s1" "u2" "/w/b.ts")
               ∉ lastSeenChanges
                   (run new [SetEnabled true;
                             ProcessChanges [sampleChange "s1" "u1" "/w/a.ts"] false;
                             TimerFires 0;
                             ShowDiffSettles
                               (getChangeKey (sampleChange "s1" "u1" "/w/a.ts"))]).1).
  { apply (bool_decide_unpack _). vm_compute. exact I. }
  split.
  { split; [reflexivity|]. split; [reflexivity|]. split; [|exact Hb].
    apply (bool_decide_unpack _). vm_compute. exact I. }
  destruct (unseen_record_is_scheduled_and_shown
              (run new [SetEnabled true;
                        ProcessChanges [sampleChange "s1" "u1" "/w/a.ts"] false;
                        TimerFires 0;
                        ShowDiffSettles
                          (getChangeKey (sampleChange "s1" "u1" "/w/a.ts"))]).1
              (sampleChange "s1" "u2" "/w/b.ts") 250 eq_refl)
    as [H1 _].
  destruct (H1 Hb) as (Ht & _ & _ & Ho & _).
  split; [exact Ht|]. split; [exact Ho|].
  exact (proj2 (unseen_record_is_scheduled_and_shown
                  (run new [SetEnabled true;
                            ProcessChanges [sampleChange "s1" "u1" "/w/a.ts"] false;
                            TimerFires 0;
                            ShowDiffSettles
                              (getChangeKey (sampleChange "s1" "u1" "/w/a.ts"))]).1
                  (sampleChange "s1" "u1" "/w/a.ts") 0 eq_refl)).
Defined.

(** X15.  The [finally] block of a timeout callback deletes the pending
    entry of its key whichever timeout that entry holds.  When [reset()]
    is called while the callback of a record awaits [showDiff] and the
    record is processed again before [showDiff] settles, the settling
    callback removes the entry of the newly armed timeout: the pending map
    is empty while that timeout stays armed, [setEnabled(false)] does not
    disarm it, and it hands the record to [showDiff] a second time, on a
    disabled tracker. *)
Theorem reset_while_showing_orphans_a_timeout (s : t) (c : FileChange.t) :
  isEnabled s = true →
  getChangeKey c ∉ lastSeenChanges s →
  let h := nextTimer s in
  let r := run s [ProcessChanges [c] false; TimerFires h; Reset;
                  ProcessChanges [c] false; ShowDiffSettles (getChangeKey c)] in
  r.2 = [c]
  ∧ pendingDiffs r.1 = ∅
  ∧ timers r.1 !! S h = Some (mkTimeout c (delay s))
  ∧ timers (setEnabled false r.1) !! S h = Some (mkTimeout c (delay s))
  ∧ (run r.1 [SetEnabled false; TimerFires (S h)]).2 = [c]
  ∧ isEnabled (run r.1 [SetEnabled false; TimerFires (S h)]).1 = false.
Proof.
  intros Hen Hnew h r. subst h r.
  cbn [run step fst snd]. rewrite processChanges_one by done.
  set (s1 := scheduleDiff _ c).
  assert (Ht1 : timers s1 !! nextTimer s = Some (mkTimeout c (delay s))).
  { subst s1. unfold scheduleDiff. cbn [timers withSeen nextTimer delay].
    by rewrite lookup_insert_eq. }
  rewrite (timerFires_armed _ _ _ Ht1). cbn [fst snd change].
  set (s2 := mk _ _ _ _ _ _ (awaiting s1 ++ [getChangeKey c])).
  assert (Hen3 : isEnabled (reset s2) = true) by done.
  assert (Hnew3 : getChangeKey c ∉ lastSeenChanges (reset s2)).
  { cbn [reset lastSeenChanges]. set_solver. }
  rewrite (processChanges_one (reset s2) c Hen3 Hnew3).
  set (s4 := scheduleDiff _ c).
  assert (Ht4 : timers s4 !! S (nextTimer s) = Some (mkTimeout c (delay s))).
  { subst s4. unfold scheduleDiff. cbn [timers withSeen reset nextTimer delay].
    subst s2 s1. cbn [nextTimer scheduleDiff withSeen delay].
    by rewrite lookup_insert_eq. }
  assert (Hp4 : pendingDiffs s4 = {[ getChangeKey c := S (nextTimer s) ]}).
  { subst s4. unfold scheduleDiff. cbn [pendingDiffs withSeen reset nextTimer].
    subst s2 s1. cbn [nextTimer scheduleDiff withSeen]. done. }
  assert (Ha4 : getChangeKey c ∈ awaiting s4).
  { subst s4. unfold scheduleDiff. cbn [awaiting withSeen reset].
    subst s2. cbn [awaiting]. apply elem_of_app. right. apply list_elem_of_here. }
  assert (Hen4 : isEnabled s4 = true) by done.
  unfold showDiffSettles. rewrite !decide_True by done.
  set (s5 := mk _ _ _ _ _ _ (removeFirst (getChangeKey c) (awaiting s4))).
  assert (Hp5 : pendingDiffs s5 = ∅).
  { subst s5. cbn [pendingDiffs]. by rewrite Hp4, delete_singleton_eq. }
  assert (Ht5 : timers s5 = timers s4) by done.
  assert (Ht6 : timers (setEnabled false s5) = timers s4).
  { cbn [setEnabled timers]. rewrite Hp5, values_empty. done. }
  assert (Ht6' : timers (setEnabled false s5) !! S (nextTimer s)
                 = Some (mkTimeout c (delay s))) by (by rewrite Ht6).
  rewrite (timerFires_armed _ _ _ Ht6'). cbn [fst snd change app].
  split; [done|]. split; [done|]. split; [by rewrite Ht5|]. by rewrite Ht6.
Qed.

Lemma reset_while_showing_orphans_a_timeout_witness :
  let a := sampleChange "s1" "u1" "/w/a.ts" in
  let s := setEnabled true new in
  (isEnabled s = true ∧ nextTimer s = 0%nat)
  ∧ (run s [ProcessChanges [a] false; TimerFires 0; Reset;
            ProcessChanges [a] false; ShowDiffSettles (getChangeKey a);
            SetEnabled false; TimerFires 1]).2 = [a; a].
Proof.
  split; [split; reflexivity|].
  assert (Hnew : getChangeKey (sampleChange "s1" "u1" "/w/a.ts")
                 ∉ lastSeenChanges (setEnabled true new)).
  { apply (bool_decide_unpack _). vm_compute. exact I. }
  destruct (reset_while_showing_orphans_a_timeout
              (setEnabled true new) (sampleChange "s1" "u1" "/w/a.ts") eq_refl Hnew)
    as (Ho & _ & _ & _ & Ho' & _).
  change [ProcessChanges [sampleChange "s1" "u1" "/w/a.ts"] false; TimerFires 0; Reset;
          ProcessChanges [sampleChange "s1" "u1" "/w/a.ts"] false;
          ShowDiffSettles (getChangeKey (sampleChange "s1" "u1" "/w/a.ts"));
          SetEnabled false; TimerFires 1]
    with ([ProcessChanges [sampleChange "s1" "u1" "/w/a.ts"] false; TimerFires 0; Reset;
           ProcessChanges [sampleChange "s1" "u1" "/w/a.ts"] false;
           ShowDiffSettles (getChangeKey (sampleChange "s1" "u1" "/w/a.ts"))]
          ++ [SetEnabled false; TimerFires 1]).
  rewrite run_app. cbn [snd].
  change (nextTimer (setEnabled true new)) with 0%nat in Ho, Ho'.
  rewrite Ho, Ho'. reflexivity.
Defined.

(** *** Several new records at once *)
Lemma identifyNew_all_new cs nc0 seen0 :
  NoDup (getChangeKey <$> cs) →
  (∀ c, c ∈ cs → getChangeKey c ∉ seen0) →
  (fold_left identifyNew cs (nc0, seen0)).1 = nc0 ++ cs.
Proof.
  revert nc0 seen0. induction cs as [|c cs IH]; intros nc0 seen0 Hnd Hnew.
  - by rewrite app_nil_r.
  - cbn [fold_left]. unfold identifyNew at 2. cbn [fst snd].
    rewrite decide_False by (apply Hnew; apply list_elem_of_here).
    rewrite fmap_cons in Hnd. apply NoDup_cons in Hnd as [Hc Hnd].
    rewrite IH; [by rewrite <- app_assoc|done|].
    intros c' Hc'. apply not_elem_of_union. split.
    + apply Hnew. by apply list_elem_of_further.
    + intros E%elem_of_singleton. apply Hc. apply list_elem_of_fmap. by exists c'.
Qed.

Lemma fold_scheduleDiff_fresh nc s :
  NoDup (getChangeKey <$> nc) →
  (∀ c, c ∈ nc → pendingDiffs s !! getChangeKey c = None) →
  (∀ i c, nc !! i = Some c →
     timers (fold_left scheduleDiff nc s) !! (nextTimer s + i)%nat
     = Some (mkTimeout c (delay s)))
  ∧ (∀ h, (h < nextTimer s)%nat →
       timers (fold_left scheduleDiff nc s) !! h = timers s !! h).
Proof.
  revert s. induction nc as [|c nc IH]; intros s Hnd Hfree.
  - split; [by intros i c H|done].
  - rewrite fmap_cons in Hnd. apply NoDup_cons in Hnd as [Hc Hnd].
    assert (Hnone : pendingDiffs s !! getChangeKey c = None)
      by (apply Hfree; apply list_elem_of_here).
    assert (Ht : timers (scheduleDiff s c)
                 = <[nextTimer s := mkTimeout c (delay s)]> (timers s)).
    { unfold scheduleDiff. cbn [timers]. by rewrite Hnone. }
    destruct (IH (scheduleDiff s c) Hnd) as [IHin IHout].
    { intros c' Hc'. unfold scheduleDiff. cbn [pendingDiffs].
      rewrite lookup_insert_ne.
      - apply Hfree. by apply list_elem_of_further.
      - intros E. apply Hc. apply list_elem_of_fmap. by exists c'. }
    cbn [fold_left]. split.
    + intros [|i] c' Hi.
      * injection Hi as <-. rewrite Nat.add_0_r.
        rewrite IHout by (cbn [scheduleDiff nextTimer]; lia).
        by rewrite Ht, lookup_insert_eq.
      * cbn [lookup list_lookup] in Hi. specialize (IHin i c' Hi).
        cbn [scheduleDiff nextTimer delay] in IHin.
        by replace (nextTimer s + S i)%nat with (S (nextTimer s) + i)%nat by lia.
    + intros h Hh. rewrite IHout by (cbn [scheduleDiff nextTimer]; lia).
      rewrite Ht. by rewrite lookup_insert_ne by lia.
Qed.

(** Armed timeouts with different handles, fired one after the other,
    hand over their records in the order of the firings. *)
Lemma run_fires hs s :
  NoDup hs →
  (∀ h, h ∈ hs → is_Some (timers s !! h)) →
  Some <$> (run s (TimerFires <$> hs)).2 = (λ h, change <$> timers s !! h) <$> hs.
Proof.
  revert s. induction hs as [|h hs IH]; intros s Hnd Harmed; [done|].
  apply NoDup_cons in Hnd as [Hh Hnd].
  destruct (Harmed h) as [tmo Ht]; [apply list_elem_of_here|].
  rewrite !fmap_cons. cbn [run step fst snd].
  rewrite (timerFires_armed _ _ _ Ht). cbn [fst snd app]. rewrite fmap_cons, Ht.
  cbn [fmap option_fmap option_map]. f_equal.
  rewrite IH; [|done|].
  - apply list_fmap_ext. intros i h' Hi. cbn [timers].
    rewrite lookup_delete_ne; [done|]. intros ->. apply Hh.
    by apply list_elem_of_lookup_2 in Hi.
  - intros h' Hh'. cbn [timers]. rewrite lookup_delete_ne.
    + apply Harmed. by apply list_elem_of_further.
    + by intros ->.
Qed.

Lemma omap_fmap_compose {A B C : Type} (g : A → B) (f : B → option C) (l : list A) :
  omap f (g <$> l) = omap (λ x, f (g x)) l.
Proof. induction l as [|x l IH]; [done|]. cbn. by rewrite IH. Qed.

Lemma omap_lookup_seq {A : Type} (l : list A) :
  omap (λ i, l !! i) (seq 0 (length l)) = l.
Proof.
  induction l as [|x l IH]; [done|].
  cbn [length seq omap list_omap lookup list_lookup].
  rewrite <- fmap_S_seq, omap_fmap_compose. f_equal. exact IH.
Qed.

Lemma omap_Some_fmap {A B : Type} (f : A → option B) (l : list A) (out : list B) :
  Some <$> out = f <$> l → out = omap f l.
Proof.
  revert out. induction l as [|x l IH]; intros [|y out]; try done.
  rewrite !fmap_cons. intros [= Hy Hrest]. cbn. rewrite <- Hy. f_equal. by apply IH.
Qed.

(** X16.  Records with different unseen keys, given to an enabled
    tracker in one call (none of them pending), get one timeout each: the
    record at place [i] of the input is armed under the handle that is [i]
    after the next handle, with the current delay.  When these timeouts
    fire, in whatever order, each record is handed to [showDiff] exactly
    once, in the order of the firings. *)
Theorem new_records_are_shown_in_firing_order
    (s : t) (cs : list FileChange.t) (order : list nat) :
  isEnabled s = true →
  NoDup (getChangeKey <$> cs) →
  (∀ c, c ∈ cs →
     (getChangeKey c ∉ lastSeenChanges s) ∧ pendingDiffs s !! getChangeKey c = None) →
  order ≡ₚ seq 0 (length cs) →
  let s' := processChanges cs false s in
  let fired := run s' (TimerFires <$> ((λ i, nextTimer s + i)%nat <$> order)) in
  (∀ i c, cs !! i = Some c →
     timers s' !! (nextTimer s + i)%nat = Some (mkTimeout c (delay s)))
  ∧ Some <$> fired.2 = (λ i, cs !! i) <$> order
  ∧ fired.2 ≡ₚ cs.
Proof.
  intros Hen Hnd Hnew Hperm s' fired.
  assert (Harmed : ∀ i c, cs !! i = Some c →
            timers s' !! (nextTimer s + i)%nat = Some (mkTimeout c (delay s))).
  { subst s'. destruct cs as [|c0 cs0]; [by intros i c H|].
    unfold processChanges. rewrite Hen. cbn [negb orb length Nat.eqb]. cbv zeta.
    rewrite identifyNew_all_new by (done || (intros c Hc; by apply Hnew)).
    cbn [app length Nat.eqb].
    set (s1 := withSeen _ s).
    destruct (fold_scheduleDiff_fresh (c0 :: cs0) s1 Hnd) as [Hin _].
    { intros c Hc. by apply Hnew. }
    exact Hin. }
  assert (Hout : Some <$> fired.2 = (λ i, cs !! i) <$> order).
  { subst fired. rewrite run_fires.
    - rewrite <- list_fmap_compose. apply list_fmap_ext. intros j i Hj. cbn.
      assert (Hi : i ∈ seq 0 (length cs)).
      { rewrite <- Hperm. by apply list_elem_of_lookup_2 in Hj. }
      apply elem_of_seq in Hi as [_ Hi].
      destruct (lookup_lt_is_Some_2 cs i) as [c Hc]; [lia|].
      by rewrite (Harmed i c Hc), Hc.
    - apply NoDup_fmap_2; [intros i j ?; lia|]. rewrite Hperm. apply NoDup_seq.
    - intros h (i & -> & Hi)%list_elem_of_fmap.
      assert (Hi' : i ∈ seq 0 (length cs)) by (by rewrite <- Hperm).
      apply elem_of_seq in Hi' as [_ Hi'].
      destruct (lookup_lt_is_Some_2 cs i) as [c Hc]; [lia|].
      by rewrite (Harmed i c Hc). }
  split; [exact Harmed|]. split; [exact Hout|].
  rewrite (omap_Some_fmap _ _ _ Hout), Hperm. by rewrite omap_lookup_seq.
Qed.

Lemma new_records_are_shown_in_firing_order_witness :
  let a := sampleChange "s1" "u1" "/w/a.ts" in
  let b := sampleChange "s1" "u2" "/w/b.ts" in
  let s := setEnabled true new in
  (run (processChanges [a; b] false s) [TimerFires 1; TimerFires 0]).2 = [b; a].
Proof.
  assert (Hnd : NoDup (getChangeKey <$> [sampleChange "s1" "u1" "/w/a.ts";
                                         sampleChange "s1" "u2" "/w/b.ts"])).
  { apply (bool_decide_unpack _). vm_compute. exact I. }
  assert (Hnew : ∀ c, c ∈ [sampleChange "s1" "u1" "/w/a.ts";
                           sampleChange "s1" "u2" "/w/b.ts"] →
            (getChangeKey c ∉ lastSeenChanges (setEnabled true new))
            ∧ pendingDiffs (setEnabled true new) !! getChangeKey c = None).
  { intros c Hc. split; [apply not_elem_of_empty|apply lookup_empty]. }
  assert (Hperm : [1%nat; 0%nat] ≡ₚ seq 0 (length [sampleChange "s1" "u1" "/w/a.ts";
                                                  sampleChange "s1" "u2" "/w/b.ts"])).
  { apply perm_swap. }
  destruct (new_records_are_shown_in_firing_order (setEnabled true new)
              [sampleChange "s1" "u1" "/w/a.ts"; sampleChange "s1" "u2" "/w/b.ts"]
              [1%nat; 0%nat] eq_refl Hnd Hnew Hperm) as (_ & Hout & _).
  cbn [fmap list_fmap lookup list_lookup nextTimer setEnabled new Nat.add] in Hout.
  cbn [nextTimer setEnabled new].
  destruct (run _ _).2 as [|x [|y [|z l]]]; try discriminate Hout.
  by injection Hout as -> ->.
Defined.

End LiveDiffTrackerRuns.

(** ** The heuristic tracker over whole runs *)
Module HeuristicTrackerRuns.
Import HeuristicTracker TimeoutFacts HeuristicTrackerFacts.

Lemma clearTimeouts_empty {A : Type} (hs : list nat) :
  clearTimeouts hs (∅ : gmap nat A) = ∅.
Proof.
  apply map_eq. intros h. rewrite lookup_clearTimeouts, lookup_empty.
  by case_decide.
Qed.

Lemma last_cons_cons {A : Type} (x y : A) l : last (x :: y :: l) = last (y :: l).
Proof. done. Qed.

Section Host.
Variable shouldExcludeFile : string -> bool.
Variable pathRelative : string -> string -> string.
Variable pathSep : ascii.

Local Abbreviation step := (HeuristicTracker.step shouldExcludeFile pathRelative pathSep).
Local Abbreviation run := (HeuristicTracker.run shouldExcludeFile pathRelative pathSep).

Lemma run_cons s e es : run s (e :: es) = run (step s e) es.
Proof. done. Qed.

(** The records one step stores: none, unless the step is the firing of
    a timeout or the completion of [openTextDocument], and then at most
    one, made by [showHeuristicDiff]. *)
Lemma step_adds s e :
  ∃ added,
    heuristicChanges (step s e) = heuristicChanges s ++ added
    ∧ Forall (λ r, ∃ clock fileName before after,
                r = heuristicChange clock fileName before after) added
    ∧ (length added
       ≤ if match e with TimerFires _ _ | DocumentOpened _ _ _ => true | _ => false end
         then 1 else 0)%nat.
Proof.
  assert (Hnone : ∀ s', heuristicChanges s' = heuristicChanges s →
            ∀ n, ∃ added, heuristicChanges s' = heuristicChanges s ++ added
              ∧ Forall (λ r, ∃ clock fileName before after,
                          r = heuristicChange clock fileName before after) added
              ∧ (length added ≤ n)%nat).
  { intros s' E n. exists []. rewrite app_nil_r. split; [done|].
    split; [constructor|cbn; lia]. }
  assert (Hone : ∀ s' clock f b a,
            heuristicChanges s' = heuristicChanges s ++ [heuristicChange clock f b a] →
            ∃ added, heuristicChanges s' = heuristicChanges s ++ added
              ∧ Forall (λ r, ∃ clock fileName before after,
                          r = heuristicChange clock fileName before after) added
              ∧ (length added ≤ 1)%nat).
  { intros s' clock f b a E. exists [heuristicChange clock f b a].
    split; [done|]. split; [|cbn; lia]. constructor; [|constructor].
    by exists clock, f, b, a. }
  destruct e; cbn [HeuristicTracker.step].
  - apply Hnone. unfold setEnabled. by destruct enabled.
  - by apply Hnone.
  - by apply Hnone.
  - apply Hnone. unfold onDidCreate. by repeat case_match.
  - apply Hnone. unfold onDidChange. by repeat case_match.
  - apply Hnone. unfold onWillSaveTextDocument. by repeat case_match.
  - apply Hnone. unfold onDidOpenTextDocument. by repeat case_match.
  - apply Hnone. unfold onDidCloseTextDocument. by repeat case_match.
  - unfold timerFires. destruct (timers s !! h) as [[task d]|]; [|by apply Hnone].
    destruct task as [u|u|doc orig|doc c]; try by apply Hnone.
    by eapply Hone.
  - unfold documentOpened. destruct (opening s !! h) as [task|]; [|by apply Hnone].
    destruct task as [u|u|doc orig|doc c].
    + destruct result as [d|]; [|by apply Hnone]. case_match; [|by apply Hnone].
      by eapply Hone.
    + destruct result as [d|]; [|by apply Hnone]. case_match; [|by apply Hnone].
      by eapply Hone.
    + destruct result as [d|]; [|by apply Hnone]. case_match; [|by apply Hnone].
      by eapply Hone.
    + by apply Hnone.
  - by apply Hnone.
  - by apply Hnone.
Qed.

(** X17.  Nothing ever removes a stored heuristic record.  Over any
    run of events (calls of the methods, the five handlers, firings of
    timeouts, completions of [openTextDocument], [reset()], [dispose()]),
    the list that [getHeuristicChanges] returns keeps what it held as a
    prefix; what was added are Heuristic records of the session
    [heuristic] with [isHeuristic] true and both contents present, and
    there are at most as many of them as callbacks ran. *)
Theorem heuristic_records_only_grow (s : t) (es : list event) :
  ∃ added,
    getHeuristicChanges (run s es) = getHeuristicChanges s ++ added
    ∧ Forall (λ r, FileChange.sessionId r = "heuristic"
                   ∧ FileChange.toolName r = Heuristic
                   ∧ FileChange.isHeuristic r = Some true
                   ∧ FileChange.isDeleted r = None
                   ∧ is_Some (FileChange.oldContent r)
                   ∧ is_Some (FileChange.newContent r)) added
    ∧ (length added
       ≤ length (List.filter
                   (λ e, match e with
                         | TimerFires _ _ | DocumentOpened _ _ _ => true
                         | _ => false
                         end) es))%nat.
Proof.
  unfold getHeuristicChanges. revert s.
  induction es as [|e es IH]; intros s.
  - exists []. rewrite app_nil_r. split; [done|]. split; [constructor|done].
  - rewrite run_cons. destruct (IH (step s e)) as (rest & E & Hshape & Hlen).
    destruct (step_adds s e) as (added & E1 & Hadded & Hlen1).
    exists (added ++ rest). rewrite E, E1, <- app_assoc. split; [done|].
    split.
    + apply Forall_app. split; [|done].
      eapply Forall_impl; [exact Hadded|].
      intros r (clock & f & b & a & ->). cbn. eauto 10.
    + rewrite length_app. cbn [List.filter].
      destruct e; cbn [length] in *; lia.
Qed.

Lemma forallb_cons_true {A : Type} (f : A → bool) x l :
  forallb f (x :: l) = true → f x = true ∧ forallb f l = true.
Proof. cbn. by intros ?%andb_true_iff. Qed.

(** X18.  A disabled tracker with no timeout armed and no callback
    waiting stays that way until it is enabled: whatever handlers are
    called, no record is stored, no timeout is armed, and the snapshots
    are what they were or have been emptied by [reset()] or another
    disabling. *)
Theorem disabled_idle_tracker_stays_idle (s : t) (es : list event) :
  isEnabled s = false → timers s = ∅ → opening s = ∅ →
  forallb (λ e, match e with SetEnabled true _ _ => false | _ => true end) es = true →
  getHeuristicChanges (run s es) = getHeuristicChanges s
  ∧ timers (run s es) = ∅
  ∧ opening (run s es) = ∅
  ∧ isEnabled (run s es) = false
  ∧ (fileSnapshots (run s es) = fileSnapshots s ∨ fileSnapshots (run s es) = ∅).
Proof.
  unfold getHeuristicChanges. revert s.
  induction es as [|e es IH]; intros s Hen Ht Ho Hes; [by auto 10|].
  apply forallb_cons_true in Hes as [He Hes]. rewrite run_cons.
  assert (Hstep : heuristicChanges (step s e) = heuristicChanges s
                  ∧ timers (step s e) = ∅ ∧ opening (step s e) = ∅
                  ∧ isEnabled (step s e) = false
                  ∧ (fileSnapshots (step s e) = fileSnapshots s
                     ∨ fileSnapshots (step s e) = ∅)).
  { destruct e; cbn [HeuristicTracker.step].
    - destruct enabled; [done|]. cbn [setEnabled heuristicChanges timers opening
        isEnabled fileSnapshots]. rewrite Ht, clearTimeouts_empty. auto 10.
    - cbn. auto 10.
    - cbn. auto 10.
    - unfold onDidCreate. rewrite Hen. cbn. auto 10.
    - unfold onDidChange. rewrite Hen. cbn. auto 10.
    - unfold onWillSaveTextDocument. rewrite Hen. cbn. auto 10.
    - unfold onDidOpenTextDocument. rewrite Hen. cbn. auto 10.
    - unfold onDidCloseTextDocument. rewrite Hen. cbn. auto 10.
    - unfold timerFires. rewrite Ht, lookup_empty. auto 10.
    - unfold documentOpened. rewrite Ho, lookup_empty. auto 10.
    - cbn [reset heuristicChanges timers opening isEnabled fileSnapshots].
      rewrite Ht, clearTimeouts_empty. auto 10.
    - cbn [dispose reset heuristicChanges timers opening isEnabled fileSnapshots].
      rewrite Ht, clearTimeouts_empty. auto 10. }
  destruct Hstep as (E & Ht' & Ho' & Hen' & Hsnap).
  destruct (IH (step s e) Hen' Ht' Ho' Hes) as (E2 & ? & ? & ? & Hsnap2).
  rewrite E2, E. repeat split; try done.
  destruct Hsnap2 as [-> | ->]; [done|by right].
Qed.

(** X19.  The timeouts armed by the watcher handlers are kept in no
    map, so disabling the tracker does not disarm them and their callbacks
    do not look at [isEnabled]: a file created just before
    [setEnabled(false)] still gets its record and its snapshot once the
    timeout has fired and the file has been read, on a tracker that is
    disabled and whose snapshots had just been emptied. *)
Theorem creation_callback_outlives_disable
    (s : t) (u : Uri) (visible : list TextDocument) (hasWorkspaceFolder : bool)
    (read : TextDocument) (c1 c2 : Clock) :
  isEnabled s = true →
  shouldExcludeFile (fsPath u) = false →
  (∀ k, pendingChanges s !! k ≠ Some (nextTimer s)) →
  (0 < String.length (getText read))%nat →
  let h := nextTimer s in
  let disabled := run s [DidCreate u; SetEnabled false visible hasWorkspaceFolder] in
  let s' := run disabled [TimerFires h c1; DocumentOpened h (Some read) c2] in
  isEnabled disabled = false
  ∧ fileSnapshots disabled = ∅
  ∧ timers disabled !! h = Some (CreatedTask u, delay s)
  ∧ isEnabled s' = false
  ∧ getHeuristicChanges s'
    = getHeuristicChanges s ++ [heuristicChange c2 (fsPath u) EmptyString (getText read)]
  ∧ fileSnapshots s' = {[ uriString u := getText read ]}.
Proof.
  intros Hen Hex Hfresh Hlen h disabled s'. subst h disabled s'.
  rewrite !run_cons. cbn [HeuristicTracker.run fold_left HeuristicTracker.step].
  unfold onDidCreate. rewrite Hen, Hex. cbn [negb].
  set (s1 := (setTimeout (CreatedTask u) s).1).
  set (s2 := setEnabled shouldExcludeFile false visible hasWorkspaceFolder s1).
  assert (Ht2 : timers s2 !! nextTimer s = Some (CreatedTask u, delay s)).
  { subst s2 s1. cbn [setEnabled setTimeout fst timers pendingChanges].
    rewrite lookup_clearTimeouts. rewrite decide_False.
    - by rewrite lookup_insert_eq.
    - intros [k Hk]%elem_of_values. by apply (Hfresh k). }
  split; [done|]. split; [done|]. split; [done|].
  rewrite (timerFires_opening _ _ _ _ _ Ht2) by done.
  unfold documentOpened. cbn [withOpening opening]. rewrite lookup_insert_eq.
  apply Nat.ltb_lt in Hlen. rewrite Hlen.
  cbn [showHeuristicDiff withSnapshots withOpening withTimers isEnabled
       heuristicChanges fileSnapshots getHeuristicChanges].
  split; [done|]. split; [done|]. done.
Qed.

(** X20.  A save that is pending for a document is dropped when the
    document is closed, and replaced when the document is saved again.
    After [onWillSaveTextDocument] and [onDidCloseTextDocument] for the
    same URI the timeout of the save is disarmed, no pending entry and no
    snapshot is left, and the firing of that timeout does nothing.  After
    two calls of [onWillSaveTextDocument] the first timeout is disarmed and
    the second one is pending; it closes over the same before-content,
    since the first call stores no snapshot. *)
Theorem pending_save_is_dropped_or_replaced
    (s : t) (doc closed again : TextDocument) (clock : Clock) :
  isEnabled s = true →
  scheme (uri doc) = "file" →
  shouldExcludeFile (fileName doc) = false →
  let h := nextTimer s in
  let u := uriString (uri doc) in
  (uriString (uri closed) = u →
   let s' := run s [WillSave doc; DidClose closed] in
   timers s' !! h = None
   ∧ pendingChanges s' !! u = None
   ∧ fileSnapshots s' !! u = None
   ∧ step s' (TimerFires h clock) = s')
  ∧ (uri again = uri doc → fileName again = fileName doc →
     let s' := run s [WillSave doc; WillSave again] in
     timers s' !! h = None
     ∧ timers s' !! S h
       = Some (SaveTask again (default EmptyString (fileSnapshots s !! u)), delay s)
     ∧ pendingChanges s' !! u = Some (S h)
     ∧ getHeuristicChanges s' = getHeuristicChanges s).
Proof.
  intros Hen Hs Hex h u. subst h u.
  destruct (onWillSave_fields shouldExcludeFile doc s Hen Hs Hex)
    as (Ht & Hp & Hn & Hsnap & Hrec & Hen1 & Hd & _).
  set (s1 := onWillSaveTextDocument shouldExcludeFile doc s) in *.
  split.
  - intros Hu s'. subst s'. rewrite !run_cons.
    cbn [HeuristicTracker.run fold_left HeuristicTracker.step]. fold s1.
    unfold onDidCloseTextDocument. rewrite Hen1, Hu. cbn [negb]. cbv zeta.
    cbn [withSnapshots pendingChanges timers]. rewrite Hp.
    assert (Hgone : timers
              (withPending (delete (uriString (uri doc)) (pendingChanges s1))
                 (withTimers (clearTimeout (nextTimer s) (timers s1))
                    (withSnapshots (delete (uriString (uri doc)) (fileSnapshots s1)) s1)))
              !! nextTimer s = None).
    { cbn [withPending withTimers timers]. unfold clearTimeout.
      by rewrite lookup_delete_eq. }
    split; [exact Hgone|].
    split; [cbn [withPending pendingChanges]; by rewrite lookup_delete_eq|].
    split; [cbn [withPending withTimers withSnapshots fileSnapshots];
            by rewrite lookup_delete_eq|].
    unfold timerFires. by rewrite Hgone.
  - intros Hu Hf s'. subst s'. rewrite !run_cons.
    cbn [HeuristicTracker.run fold_left HeuristicTracker.step]. fold s1.
    assert (Hs2 : scheme (uri again) = "file") by (by rewrite Hu).
    assert (Hex2 : shouldExcludeFile (fileName again) = false) by (by rewrite Hf).
    destruct (onWillSave_fields shouldExcludeFile again s1 Hen1 Hs2 Hex2)
      as (Ht2 & Hp2 & Hn2 & Hsnap2 & Hrec2 & _ & _ & Hold).
    rewrite Hu, Hn, Hsnap, Hd in *. unfold getHeuristicChanges.
    split; [apply (Hold _ Hp); lia|]. split; [exact Ht2|].
    split; [exact Hp2|]. by rewrite Hrec2.
Qed.

(** X21.  Saving a document twice with the same resulting content
    stores at most one record.  When the callback of the first save is
    done, the before-content a next save would capture is the saved
    content, whether a record was stored or not; so the callback of a
    second save that reads the same content stores nothing. *)
Theorem second_identical_save_stores_nothing
    (s : t) (doc saved : TextDocument) (c1 c2 c3 c4 : Clock) :
  isEnabled s = true →
  scheme (uri doc) = "file" →
  shouldExcludeFile (fileName doc) = false →
  let h := nextTimer s in
  let u := uriString (uri doc) in
  let once := run s [WillSave doc; TimerFires h c1; DocumentOpened h (Some saved) c2] in
  let twice := run once [WillSave doc; TimerFires (S h) c3;
                         DocumentOpened (S h) (Some saved) c4] in
  default EmptyString (fileSnapshots once !! u) = getText saved
  ∧ pendingChanges once !! u = None
  ∧ getHeuristicChanges twice = getHeuristicChanges once
  ∧ fileSnapshots twice = fileSnapshots once.
Proof.
  intros Hen Hs Hex h u once twice.
  assert (Hcallback : ∀ s0 ca cb,
            isEnabled s0 = true →
            let s3 := run s0 [WillSave doc; TimerFires (nextTimer s0) ca;
                              DocumentOpened (nextTimer s0) (Some saved) cb] in
            isEnabled s3 = true
            ∧ nextTimer s3 = S (nextTimer s0)
            ∧ pendingChanges s3 !! uriString (uri doc) = None
            ∧ default EmptyString (fileSnapshots s3 !! uriString (uri doc))
              = getText saved
            ∧ (default EmptyString (fileSnapshots s0 !! uriString (uri doc))
               = getText saved →
               heuristicChanges s3 = heuristicChanges s0
               ∧ fileSnapshots s3 = fileSnapshots s0)).
  { intros s0 ca cb Hen0 s3. subst s3.
    destruct (onWillSave_fields shouldExcludeFile doc s0 Hen0 Hs Hex)
      as (Ht & Hp & Hn & Hsnap & Hrec & Hen1 & Hd & _).
    rewrite !run_cons. cbn [HeuristicTracker.run fold_left HeuristicTracker.step].
    set (s1 := onWillSaveTextDocument shouldExcludeFile doc s0) in *.
    rewrite (timerFires_opening _ _ _ _ _ Ht) by done.
    unfold documentOpened. cbn [withOpening opening]. rewrite lookup_insert_eq.
    set (orig := default EmptyString (fileSnapshots s0 !! uriString (uri doc))).
    destruct (String.eqb orig (getText saved)) eqn:E; cbn [negb].
    - apply String.eqb_eq in E.
      cbn [withPending withOpening withTimers isEnabled nextTimer pendingChanges
           fileSnapshots heuristicChanges].
      rewrite lookup_delete_eq, Hsnap. by repeat split.
    - apply String.eqb_neq in E.
      cbn [withPending withOpening withTimers withSnapshots showHeuristicDiff
           isEnabled nextTimer pendingChanges fileSnapshots heuristicChanges].
      rewrite lookup_delete_eq, lookup_insert_eq. by repeat split. }
  destruct (Hcallback s c1 c2 Hen) as (Hen1 & Hn1 & Hp1 & Hsnap1 & _).
  fold h u once in Hen1, Hn1, Hp1, Hsnap1.
  split; [exact Hsnap1|]. split; [exact Hp1|].
  destruct (Hcallback once c3 c4 Hen1) as (_ & _ & _ & _ & Hsame).
  rewrite Hn1 in Hsame. fold u twice in Hsame. unfold getHeuristicChanges.
  by apply Hsame.
Qed.

Lemma fold_captureSnapshot visible snaps k :
  fold_left (captureSnapshot shouldExcludeFile) visible snaps !! k
  = match last (List.filter
                  (λ d, String.eqb (scheme (uri d)) "file"
                        && negb (shouldExcludeFile (fileName d))
                        && String.eqb (uriString (uri d)) k) visible) with
    | Some d => Some (getText d)
    | None => snaps !! k
    end.
Proof.
  revert snaps. induction visible as [|d visible IH]; intros snaps; [done|].
  cbn [fold_left List.filter]. rewrite IH. unfold captureSnapshot.
  destruct (String.eqb (scheme (uri d)) "file"); cbn [negb andb]; [|done].
  destruct (shouldExcludeFile (fileName d)); cbn [negb andb]; [done|].
  destruct (String.eqb (uriString (uri d)) k) eqn:E.
  - apply String.eqb_eq in E. subst k.
    destruct (List.filter _ visible) as [|d' l]; [by rewrite lookup_insert_eq|].
    rewrite last_cons_cons. clear IH.
    destruct (last (d' :: l)) eqn:El; [done|]. by apply last_None in El.
  - apply String.eqb_neq in E. by rewrite lookup_insert_ne.
Qed.

(** X22.  Enabling the tracker snapshots the documents of the visible
    editors: afterwards the snapshot stored under a URI is the text of the
    last visible document with that URI whose scheme is [file] and whose
    file name is not excluded, and the snapshot of a URI without such a
    document is what it was.  Enabling stores no record, arms and disarms
    no timeout, and creates the watcher exactly when there is a workspace
    folder. *)
Theorem enabling_snapshots_visible_documents
    (s : t) (visible : list TextDocument) (hasWorkspaceFolder : bool) (k : string) :
  let s' := setEnabled shouldExcludeFile true visible hasWorkspaceFolder s in
  fileSnapshots s' !! k
  = match last (List.filter
                  (λ d, String.eqb (scheme (uri d)) "file"
                        && negb (shouldExcludeFile (fileName d))
                        && String.eqb (uriString (uri d)) k) visible) with
    | Some d => Some (getText d)
    | None => fileSnapshots s !! k
    end
  ∧ isEnabled s' = true
  ∧ getHeuristicChanges s' = getHeuristicChanges s
  ∧ timers s' = timers s
  ∧ pendingChanges s' = pendingChanges s
  ∧ fileWatcher s' = hasWorkspaceFolder || fileWatcher s.
Proof.
  intros s'. subst s'. cbn [setEnabled fileSnapshots isEnabled getHeuristicChanges
    heuristicChanges timers pendingChanges fileWatcher].
  split; [apply fold_captureSnapshot|].
  split; [done|]. split; [done|]. split; [done|]. split; [done|].
  by destruct hasWorkspaceFolder.
Qed.

End Host.

Lemma disabled_idle_tracker_stays_idle_witness :
  let es := [DidCreate (fileUri "/w/a.ts"); WillSave (fileDoc "/w/a.ts" "text");
             DidOpen (fileDoc "/w/b.ts" "text"); TimerFires 0 noon;
             DocumentOpened 0 (Some (fileDoc "/w/a.ts" "text")) noon;
             Reset; SetEnabled false [] true] in
  getHeuristicChanges (run noExclusions relativeBelow "/" new es) = []
  ∧ timers (run noExclusions relativeBelow "/" new es) = ∅.
Proof.
  destruct (disabled_idle_tracker_stays_idle noExclusions relativeBelow "/" new
              [DidCreate (fileUri "/w/a.ts"); WillSave (fileDoc "/w/a.ts" "text");
               DidOpen (fileDoc "/w/b.ts" "text"); TimerFires 0 noon;
               DocumentOpened 0 (Some (fileDoc "/w/a.ts" "text")) noon;
               Reset; SetEnabled false [] true]
              eq_refl eq_refl eq_refl eq_refl) as (H1 & H2 & _).
  split; [exact H1|exact H2].
Defined.

Lemma creation_callback_outlives_disable_witness :
  let s := setEnabled noExclusions true [] true new in
  let u := fileUri "/w/new.ts" in
  let read := fileDoc "/w/new.ts" "export {}" in
  let s' := run noExclusions relativeBelow "/" s
              [DidCreate u; SetEnabled false [] true; TimerFires 0 noon;
               DocumentOpened 0 (Some read) noon] in
  isEnabled s = true
  ∧ isEnabled s' = false
  ∧ getHeuristicChanges s' = [heuristicChange noon "/w/new.ts" "" "export {}"].
Proof.
  split; [reflexivity|].
  assert (Hfresh : ∀ k : string,
            pendingChanges (setEnabled noExclusions true [] true new) !! k
            ≠ Some (nextTimer (setEnabled noExclusions true [] true new))).
  { intros k. cbn [setEnabled new pendingChanges]. by rewrite lookup_empty. }
  assert (Hlen : (0 < String.length (getText (fileDoc "/w/new.ts" "export {}")))%nat).
  { cbn. lia. }
  destruct (creation_callback_outlives_disable noExclusions relativeBelow "/"
              (setEnabled noExclusions true [] true new) (fileUri "/w/new.ts")
              [] true (fileDoc "/w/new.ts" "export {}") noon noon
              eq_refl eq_refl Hfresh Hlen) as (_ & _ & _ & H1 & H2 & _).
  split; [exact H1|exact H2].
Defined.

Lemma pending_save_is_dropped_or_replaced_witness :
  let doc := fileDoc "/w/a.ts" "draft" in
  let s := setEnabled noExclusions true [fileDoc "/w/a.ts" "old text"] true new in
  timers (run noExclusions relativeBelow "/" s [WillSave doc; DidClose doc]) !! 0%nat
  = None
  ∧ timers (run noExclusions relativeBelow "/" s [WillSave doc; WillSave doc]) !! 1%nat
    = Some (SaveTask doc "old text", 500%Z).
Proof.
  destruct (pending_save_is_dropped_or_replaced noExclusions relativeBelow "/"
              (setEnabled noExclusions true [fileDoc "/w/a.ts" "old text"] true new)
              (fileDoc "/w/a.ts" "draft") (fileDoc "/w/a.ts" "draft")
              (fileDoc "/w/a.ts" "draft") noon eq_refl eq_refl eq_refl) as [H1 H2].
  destruct (H1 eq_refl) as (Ha & _).
  destruct (H2 eq_refl eq_refl) as (_ & Hb & _).
  split; [exact Ha|]. vm_compute in Hb. vm_compute. exact Hb.
Defined.

Lemma second_identical_save_stores_nothing_witness :
  let doc := fileDoc "/w/a.ts" "draft" in
  let saved := fileDoc "/w/a.ts" "new text" in
  let s := setEnabled noExclusions true [fileDoc "/w/a.ts" "old text"] true new in
  let once := run noExclusions relativeBelow "/" s
                [WillSave doc; TimerFires 0 noon; DocumentOpened 0 (Some saved) noon] in
  let twice := run noExclusions relativeBelow "/" once
                 [WillSave doc; TimerFires 1 noon; DocumentOpened 1 (Some saved) noon] in
  getHeuristicChanges once = [heuristicChange noon "/w/a.ts" "old text" "new text"]
  ∧ getHeuristicChanges twice = getHeuristicChanges once.
Proof.
  split; [vm_compute; reflexivity|].
  exact (proj1 (proj2 (proj2
           (second_identical_save_stores_nothing noExclusions relativeBelow "/"
              (setEnabled noExclusions true [fileDoc "/w/a.ts" "old text"] true new)
              (fileDoc "/w/a.ts" "draft") (fileDoc "/w/a.ts" "new text")
              noon noon noon noon eq_refl eq_refl eq_refl)))).
Defined.

End HeuristicTrackerRuns.
